(** * Tank Battle: a shallow embedding of the simulation core

    The development follows the Python sources module by module:
    [game_map.py], [bullet.py], [tank.py], [player_tank.py],
    [enemy_tank.py] and [game.py].  Python integers are [Z]; a method that
    mutates [self] becomes a function returning the new object; a Python
    exception ([IndexError], [ZeroDivisionError]) is [None]; the
    millisecond clock ([pygame.time.get_ticks]) and the [random] module are
    read from an explicit [World] that is threaded through every call that
    consults them. *)

From Stdlib Require Import ZArith QArith Lia.
From stdpp Require Import base tactics option list strings.

Close Scope Q_scope.
Local Open Scope Z_scope.

(** ** Constants of [config.py]

    [config.py] is imported by every module ([from config import *]) but is
    not among the sources, so its constants are the fields of a record
    that the constructors take as a parameter. *)

Inductive Direction := UP | DOWN | LEFT | RIGHT.

Inductive Tile := EMPTY | GRASS | BRICK_WALL | STEEL_WALL | WATER.

Definition Color : Type := Z * Z * Z.

Record Config := mkConfig {
  SCREEN_WIDTH : Z;
  SCREEN_HEIGHT : Z;
  TILE_SIZE : Z;
  MAP_WIDTH : Z;
  MAP_HEIGHT : Z;
  TANK_SIZE : Z;
  TANK_SPEED : Z;
  BULLET_SPEED : Z;
  BULLET_SIZE : Z;
  PLAYER_LIVES : Z;
  ENEMY_COUNT : Z;
  ENEMY_SPAWN_DELAY : Z;
  DIRECTIONS : Direction -> Z * Z;
  GREEN : Color;
  PLAYER_TANK_COLOR : Color;
  ENEMY_TANK_COLOR : Color
}.

Global Instance Direction_eq_dec : EqDecision Direction.
Proof. solve_decision. Defined.

Global Instance Tile_eq_dec : EqDecision Tile.
Proof. solve_decision. Defined.

(** ** Python primitives *)

(** [a // b]: floor division, [ZeroDivisionError] when [b = 0]. *)
Definition py_floordiv (a b : Z) : option Z :=
  if b =? 0 then None else Some (a / b).

(** Resolution of a list subscript: negative subscripts count from the
    end, anything outside [-len, len) is an [IndexError]. *)
Definition py_index (len : nat) (i : Z) : option nat :=
  if (0 <=? i) && (i <? Z.of_nat len) then Some (Z.to_nat i)
  else if (- Z.of_nat len <=? i) && (i <? 0) then Some (Z.to_nat (Z.of_nat len + i))
  else None.

(** [l[i]] *)
Definition py_getitem {A} (l : list A) (i : Z) : option A :=
  k ← py_index (length l) i; l !! k.

(** [l[i] = v] *)
Definition py_setitem {A} (l : list A) (i : Z) (v : A) : option (list A) :=
  k ← py_index (length l) i; Some (<[k:=v]> l).

(** [g[y][x]] *)
Definition py_getitem2 {A} (g : list (list A)) (y x : Z) : option A :=
  row ← py_getitem g y; py_getitem row x.

(** [g[y][x] = v]: the rows are distinct list objects (they are built by a
    nested comprehension), so the assignment replaces one cell of one row. *)
Definition py_setitem2 {A} (g : list (list A)) (y x : Z) (v : A)
  : option (list (list A)) :=
  row ← py_getitem g y;
  row' ← py_setitem row x v;
  py_setitem g y row'.

(** [range(start, stop, step)] as the list of its values; [ValueError] when
    [step] is 0. *)
Definition py_range (start stop step : Z) : option (list Z) :=
  if step =? 0 then None
  else
    let len :=
      if 0 <? step then (stop - start + step - 1) / step
      else (start - stop - step - 1) / (- step) in
    Some (map (fun i => start + i * step) (seqZ 0 len)).

(** ** The outside world: clock and random source *)

(** [clock k] is what the [k]-th call of [pygame.time.get_ticks] returns and
    [entropy k] the raw outcome of the [k]-th draw. *)
Record World := mkWorld {
  clock : nat -> Z;
  clock_reads : nat;
  entropy : nat -> Z;
  entropy_used : nat
}.

(** Computations that read the world and may raise. *)
Definition M (A : Type) : Type := World -> option (A * World).

Definition ret {A} (a : A) : M A := fun w => Some (a, w).

Definition bind {A B} (m : M A) (k : A -> M B) : M B :=
  fun w => match m w with
           | Some (a, w') => k a w'
           | None => None
           end.

Definition lift {A} (o : option A) : M A :=
  fun w => match o with Some a => Some (a, w) | None => None end.

Declare Scope world_scope.
Delimit Scope world_scope with W.
Notation "'let*' x ':=' m 'in' k" := (bind m (fun x => k))
  (at level 10, x pattern, m at level 100, k at level 200) : world_scope.

(** The reading the next call of [get_ticks] will return. *)
Definition now (w : World) : Z := clock w (clock_reads w).

Definition tick (w : World) : World :=
  mkWorld (clock w) (S (clock_reads w)) (entropy w) (entropy_used w).

Definition draw (w : World) : World :=
  mkWorld (clock w) (clock_reads w) (entropy w) (S (entropy_used w)).

(** [pygame.time.get_ticks()] *)
Definition get_ticks : M Z := fun w => Some (now w, tick w).

(** [random.random()]: a multiple of 2^-53 in [0, 1). *)
Definition random_random : M Q :=
  fun w => Some (Qmake (entropy w (entropy_used w) mod 2 ^ 53) (2 ^ 53), draw w).

(** [random.choice(l)]: [IndexError] on an empty list. *)
Definition random_choice {A} (l : list A) : M A :=
  fun w =>
    match l !! Z.to_nat (entropy w (entropy_used w) mod Z.of_nat (length l)) with
    | Some a => Some (a, draw w)
    | None => None
    end.

(** [for i in range(lo, hi): s = body(i, s)] *)
Fixpoint for_loop {S} (n : nat) (i : Z) (body : Z -> S -> M S) (s : S) : M S :=
  match n with
  | O => ret s
  | Datatypes.S n' => bind (body i s) (for_loop n' (i + 1) body)
  end.

Definition for_range {S} (lo hi : Z) (body : Z -> S -> M S) (s : S) : M S :=
  for_loop (Z.to_nat (hi - lo)) lo body s.

(** ** [pygame.key.get_pressed]

    The snapshot of the keyboard, indexed by the key constants that the
    game reads. *)
Record Keys := mkKeys {
  K_UP : bool; K_w : bool;
  K_DOWN : bool; K_s : bool;
  K_LEFT : bool; K_a : bool;
  K_RIGHT : bool; K_d : bool;
  K_SPACE : bool
}.

(** ** [pygame.event.get]

    The events the game looks at: a quit request and key presses of
    Escape, R and P; every other event and key is ignored. *)
Inductive Key := K_ESCAPE | K_r | K_p | K_other.

Inductive Event := QUIT | KEYDOWN (key : Key) | OTHER_EVENT.

(** ** [pygame.Rect] *)

Module Rect.

Record t := mk { left : Z; top : Z; w : Z; h : Z }.

Definition right (r : t) : Z := left r + w r.
Definition bottom (r : t) : Z := top r + h r.

(** [a.colliderect(b)]: pygame's test; rectangles of zero width or height
    collide with nothing, negative sizes are normalised. *)
Definition colliderect (a b : t) : bool :=
  if (w a =? 0) || (h a =? 0) || (w b =? 0) || (h b =? 0) then false
  else
    (Z.min (left a) (right a) <? Z.max (left b) (right b)) &&
    (Z.min (top a) (bottom a) <? Z.max (top b) (bottom b)) &&
    (Z.min (left b) (right b) <? Z.max (left a) (right a)) &&
    (Z.min (top b) (bottom b) <? Z.max (top a) (bottom a)).

End Rect.

(** ** [game_map.py] *)

Module GameMap.

Record t := mk {
  width : Z;
  height : Z;
  tile_size : Z;
  map_data : list (list Tile)
}.

Definition with_map_data (m : t) (d : list (list Tile)) : t :=
  mk (width m) (height m) (tile_size m) d.

(** The body of the random-fill loop for one interior cell. *)
Definition fill_cell (m : t) (y x : Z) (d : list (list Tile))
  : M (list (list Tile)) :=
  (if (height m - 4 <=? y) && (x <=? 3) then ret d
   else if (y <=? 3) && (width m - 4 <=? x) then ret d
   else
     let* rand := random_random in
     if Qlt_le_dec rand (3 # 10) then lift (py_setitem2 d y x BRICK_WALL)
     else if Qlt_le_dec rand (35 # 100) then lift (py_setitem2 d y x STEEL_WALL)
     else if Qlt_le_dec rand (4 # 10) then lift (py_setitem2 d y x WATER)
     else ret d)%W.

(** One round of the loop that lays the central cross. *)
Definition cross_arm (m : t) (center_x center_y i : Z) (d : list (list Tile))
  : M (list (list Tile)) :=
  (let* d1 :=
     if (1 <? center_x + i) && (center_x + i <? width m - 1)
     then lift (py_setitem2 d center_y (center_x + i) BRICK_WALL)
     else ret d in
   if (1 <? center_y + i) && (center_y + i <? height m - 1)
   then lift (py_setitem2 d1 (center_y + i) center_x BRICK_WALL)
   else ret d1)%W.

Definition generate_map (m : t) : M t :=
  (let* d1 :=
     for_range 0 (height m) (fun y =>
       for_range 0 (width m) (fun x d => lift (py_setitem2 d y x EMPTY)))
       (map_data m) in
   let* d2 :=
     for_range 0 (width m) (fun x d =>
       let* d' := lift (py_setitem2 d 0 x STEEL_WALL) in
       lift (py_setitem2 d' (height m - 1) x STEEL_WALL)) d1 in
   let* d3 :=
     for_range 0 (height m) (fun y d =>
       let* d' := lift (py_setitem2 d y 0 STEEL_WALL) in
       lift (py_setitem2 d' y (width m - 1) STEEL_WALL)) d2 in
   let* d4 :=
     for_range 2 (height m - 2) (fun y =>
       for_range 2 (width m - 2) (fun x => fill_cell m y x)) d3 in
   let center_x := width m / 2 in
   let center_y := height m / 2 in
   let* d5 := for_range (-2) 3 (cross_arm m center_x center_y) d4 in
   ret (with_map_data m d5))%W.

(** [GameMap()]: an all-[EMPTY] grid of [MAP_HEIGHT] rows of [MAP_WIDTH]
    cells, then [generate_map]. *)
Definition blank (cfg : Config) : t :=
  mk (MAP_WIDTH cfg) (MAP_HEIGHT cfg) (TILE_SIZE cfg)
     (replicate (Z.to_nat (MAP_HEIGHT cfg))
        (replicate (Z.to_nat (MAP_WIDTH cfg)) EMPTY)).

Definition init (cfg : Config) : M t := generate_map (blank cfg).

Definition get_tile_at_position (m : t) (x y : Z) : option Tile :=
  tile_x ← py_floordiv x (tile_size m);
  tile_y ← py_floordiv y (tile_size m);
  if (0 <=? tile_x) && (tile_x <? width m) &&
     (0 <=? tile_y) && (tile_y <? height m)
  then py_getitem2 (map_data m) tile_y tile_x
  else Some STEEL_WALL.

Definition is_passable (m : t) (x y : Z) : option bool :=
  tile_type ← get_tile_at_position m x y;
  Some (bool_decide (tile_type ∈ [EMPTY; GRASS])).

Definition can_destroy_tile (m : t) (x y : Z) : option bool :=
  tile_type ← get_tile_at_position m x y;
  Some (bool_decide (tile_type = BRICK_WALL)).

Definition destroy_tile (m : t) (x y : Z) : option (bool * t) :=
  tile_x ← py_floordiv x (tile_size m);
  tile_y ← py_floordiv y (tile_size m);
  if (0 <=? tile_x) && (tile_x <? width m) &&
     (0 <=? tile_y) && (tile_y <? height m)
  then
    cur ← py_getitem2 (map_data m) tile_y tile_x;
    if bool_decide (cur = BRICK_WALL) then
      d ← py_setitem2 (map_data m) tile_y tile_x EMPTY;
      Some (true, with_map_data m d)
    else Some (false, m)
  else Some (false, m).

(** The four sampled corners, in the order the source lists them. *)
Definition corners (rect : Rect.t) : list (Z * Z) :=
  [ (Rect.left rect, Rect.top rect);
    (Rect.right rect - 1, Rect.top rect);
    (Rect.left rect, Rect.bottom rect - 1);
    (Rect.right rect - 1, Rect.bottom rect - 1) ].

Fixpoint any_impassable (m : t) (cs : list (Z * Z)) : option bool :=
  match cs with
  | [] => Some false
  | (x, y) :: rest =>
      p ← is_passable m x y;
      if negb p then Some true else any_impassable m rest
  end.

Definition check_collision_with_rect (m : t) (rect : Rect.t) : option bool :=
  any_impassable m (corners rect).

Definition get_tile_rect (m : t) (tile_x tile_y : Z) : Rect.t :=
  Rect.mk (tile_x * tile_size m) (tile_y * tile_size m)
          (tile_size m) (tile_size m).

End GameMap.

(** ** [bullet.py] *)

Module Bullet.

Record t := mk {
  x : Z;
  y : Z;
  direction : Direction;
  owner : string;
  speed : Z;
  size : Z;
  active : bool;
  dx : Z;
  dy : Z
}.

Definition init (cfg : Config) (x0 y0 : Z) (d : Direction) (o : string) : t :=
  let '(vx, vy) := DIRECTIONS cfg d in
  mk x0 y0 d o (BULLET_SPEED cfg) (BULLET_SIZE cfg) true
     (vx * BULLET_SPEED cfg) (vy * BULLET_SPEED cfg).

Definition with_pos (b : t) (x' y' : Z) : t :=
  mk x' y' (direction b) (owner b) (speed b) (size b) (active b) (dx b) (dy b).

Definition with_active (b : t) (a : bool) : t :=
  mk (x b) (y b) (direction b) (owner b) (speed b) (size b) a (dx b) (dy b).

Definition update (cfg : Config) (b : t) : t :=
  if negb (active b) then b
  else
    let b1 := with_pos b (x b + dx b) (y b + dy b) in
    if (x b1 <? 0) || (SCREEN_WIDTH cfg <? x b1) ||
       (y b1 <? 0) || (SCREEN_HEIGHT cfg <? y b1)
    then with_active b1 false
    else b1.

Definition get_rect (b : t) : Rect.t :=
  Rect.mk (x b - size b / 2) (y b - size b / 2) (size b) (size b).

Definition check_collision_with_rect (b : t) (rect : Rect.t) : bool * t :=
  if negb (active b) then (false, b)
  else if Rect.colliderect (get_rect b) rect then (true, with_active b false)
  else (false, b).

Definition destroy (b : t) : t := with_active b false.

End Bullet.

(** ** [tank.py] *)

Module Tank.

Record t := mk {
  x : Z;
  y : Z;
  direction : Direction;
  color : Color;
  size : Z;
  speed : Z;
  alive : bool;
  last_shot_time : Z;
  shot_cooldown : Z;
  moving : bool;
  target_x : Z;
  target_y : Z
}.

Definition init (cfg : Config) (x0 y0 : Z) (d : Direction) (c : Color) : t :=
  mk x0 y0 d c (TANK_SIZE cfg) (TANK_SPEED cfg) true 0 500 false x0 y0.

Definition with_pos (s : t) (x' y' : Z) : t :=
  mk x' y' (direction s) (color s) (size s) (speed s) (alive s)
     (last_shot_time s) (shot_cooldown s) (moving s) (target_x s) (target_y s).

Definition with_direction (s : t) (d : Direction) : t :=
  mk (x s) (y s) d (color s) (size s) (speed s) (alive s)
     (last_shot_time s) (shot_cooldown s) (moving s) (target_x s) (target_y s).

Definition with_alive (s : t) (a : bool) : t :=
  mk (x s) (y s) (direction s) (color s) (size s) (speed s) a
     (last_shot_time s) (shot_cooldown s) (moving s) (target_x s) (target_y s).

Definition with_last_shot_time (s : t) (n : Z) : t :=
  mk (x s) (y s) (direction s) (color s) (size s) (speed s) (alive s)
     n (shot_cooldown s) (moving s) (target_x s) (target_y s).

Definition with_shot_cooldown (s : t) (n : Z) : t :=
  mk (x s) (y s) (direction s) (color s) (size s) (speed s) (alive s)
     (last_shot_time s) n (moving s) (target_x s) (target_y s).

Definition with_color (s : t) (c : Color) : t :=
  mk (x s) (y s) (direction s) c (size s) (speed s) (alive s)
     (last_shot_time s) (shot_cooldown s) (moving s) (target_x s) (target_y s).

Definition get_rect (s : t) : Rect.t :=
  Rect.mk (x s - size s / 2) (y s - size s / 2) (size s) (size s).

Definition get_front_position (cfg : Config) (s : t) : Z * Z :=
  let '(vx, vy) := DIRECTIONS cfg (direction s) in
  (x s + vx * (size s / 2 + 5), y s + vy * (size s / 2 + 5)).

Definition can_move (s : t) (new_x new_y : Z) (game_map : GameMap.t)
  : option bool :=
  let new_rect :=
    Rect.mk (new_x - size s / 2) (new_y - size s / 2) (size s) (size s) in
  c ← GameMap.check_collision_with_rect game_map new_rect;
  Some (negb c).

Definition move (cfg : Config) (s : t) (d : Direction) (game_map : GameMap.t)
  : option (bool * t) :=
  if negb (alive s) then Some (false, s)
  else
    let s1 := with_direction s d in
    let '(vx, vy) := DIRECTIONS cfg d in
    let new_x := x s1 + vx * speed s1 in
    let new_y := y s1 + vy * speed s1 in
    can_move s1 new_x new_y game_map ≫= fun ok : bool =>
    if ok then Some (true, with_pos s1 new_x new_y)
    else Some (false, s1).

Definition can_shoot (s : t) : M bool :=
  (let* current_time := get_ticks in
   ret (alive s && (shot_cooldown s <=? current_time - last_shot_time s)))%W.

Definition shoot (cfg : Config) (s : t) (o : string)
  : M (option Bullet.t * t) :=
  (let* ok := can_shoot s in
   if negb ok then ret (None, s)
   else
     let* stamp := get_ticks in
     let s1 := with_last_shot_time s stamp in
     let '(bullet_x, bullet_y) := get_front_position cfg s1 in
     ret (Some (Bullet.init cfg bullet_x bullet_y (direction s1) o), s1))%W.

Definition take_damage (s : t) : t := with_alive s false.

Definition check_collision_with_bullet (s : t) (b : Bullet.t)
  : bool * Bullet.t :=
  if negb (alive s) || negb (Bullet.active b) then (false, b)
  else Bullet.check_collision_with_rect b (get_rect s).

End Tank.

(** ** [player_tank.py] *)

Module PlayerTank.

Record t := mk {
  base : Tank.t;
  lives : Z;
  max_lives : Z;
  invulnerable_time : Z;
  invulnerable_duration : Z;
  respawn_x : Z;
  respawn_y : Z
}.

Definition init (cfg : Config) (x0 y0 lives0 : Z) : t :=
  mk (Tank.with_shot_cooldown
        (Tank.init cfg x0 y0 UP (PLAYER_TANK_COLOR cfg)) 300)
     lives0 lives0 0 2000 x0 y0.

Definition with_base (p : t) (s : Tank.t) : t :=
  mk s (lives p) (max_lives p) (invulnerable_time p)
     (invulnerable_duration p) (respawn_x p) (respawn_y p).

Definition with_lives (p : t) (n : Z) : t :=
  mk (base p) n (max_lives p) (invulnerable_time p)
     (invulnerable_duration p) (respawn_x p) (respawn_y p).

Definition with_invulnerable_time (p : t) (n : Z) : t :=
  mk (base p) (lives p) (max_lives p) n
     (invulnerable_duration p) (respawn_x p) (respawn_y p).

Definition respawn (p : t) : M t :=
  (let s1 := Tank.with_pos (base p) (respawn_x p) (respawn_y p) in
   let s2 := Tank.with_direction s1 UP in
   let s3 := Tank.with_alive s2 true in
   let* current := get_ticks in
   ret (with_invulnerable_time (with_base p s3)
          (current + invulnerable_duration p)))%W.

Definition take_damage (p : t) : M t :=
  (let* current_time := get_ticks in
   if current_time <? invulnerable_time p then ret p
   else
     let p1 := with_lives p (lives p - 1) in
     if 0 <? lives p1 then respawn p1
     else ret (with_base p1 (Tank.with_alive (base p1) false)))%W.

Definition is_invulnerable (p : t) : M bool :=
  (let* current_time := get_ticks in
   ret (current_time <? invulnerable_time p))%W.

Definition add_life (p : t) : t :=
  if lives p <? max_lives p * 2 then with_lives p (lives p + 1) else p.

Definition reset (p : t) : t :=
  let s1 := Tank.with_pos (base p) (respawn_x p) (respawn_y p) in
  let s2 := Tank.with_direction s1 UP in
  let s3 := Tank.with_alive s2 true in
  let p1 := with_lives (with_base p s3) (max_lives p) in
  let p2 := with_invulnerable_time p1 0 in
  with_base p2 (Tank.with_last_shot_time (base p2) 0).

(** The movement part of [handle_input]: the [if]/[elif] chain over the
    four pairs of keys; the result of [move] is stored in [moved] and not
    used. *)
Definition steer (cfg : Config) (s : Tank.t) (keys : Keys)
    (game_map : GameMap.t) : option Tank.t :=
  if K_UP keys || K_w keys then snd <$> Tank.move cfg s UP game_map
  else if K_DOWN keys || K_s keys then snd <$> Tank.move cfg s DOWN game_map
  else if K_LEFT keys || K_a keys then snd <$> Tank.move cfg s LEFT game_map
  else if K_RIGHT keys || K_d keys then snd <$> Tank.move cfg s RIGHT game_map
  else Some s.

Definition handle_input (cfg : Config) (p : t) (keys : Keys)
    (game_map : GameMap.t) : M (option Bullet.t * t) :=
  (if negb (Tank.alive (base p)) then ret (None, p)
   else
     let* s1 := lift (steer cfg (base p) keys game_map) in
     if K_SPACE keys then
       let* shot := Tank.shoot cfg s1 "player" in
       ret (shot.1, with_base p shot.2)
     else ret (None, with_base p s1))%W.

End PlayerTank.

(** ** [enemy_tank.py]

    [SmartEnemyTank] is [EnemyTank] with other constants and its own
    decision function; the class of an object is the [smart] tag. *)

Module EnemyTank.

Record t := mk {
  base : Tank.t;
  smart : bool;
  ai_timer : Z;
  ai_decision_interval : Z;
  current_action : string;
  target_direction : Direction;
  stuck_counter : Z;
  max_stuck_time : Z;
  last_position : Z * Z;
  direction_change_timer : Z;
  preferred_directions : list Direction;
  shoot_probability : Q;
  player_last_seen_pos : option (Z * Z);
  search_mode : bool
}.

Definition init (cfg : Config) (x0 y0 : Z) : t :=
  mk (Tank.with_shot_cooldown
        (Tank.init cfg x0 y0 DOWN (ENEMY_TANK_COLOR cfg)) 800)
     false 0 60 "move" DOWN 0 30 (x0, y0) 0 [DOWN; LEFT; RIGHT; UP]
     (3 # 10) None false.

Definition init_smart (cfg : Config) (x0 y0 : Z) : t :=
  let e := init cfg x0 y0 in
  mk (Tank.with_color (Tank.with_shot_cooldown (base e) 600) (255, 100, 100))
     true (ai_timer e) 30 (current_action e) (target_direction e)
     (stuck_counter e) (max_stuck_time e) (last_position e)
     (direction_change_timer e) (preferred_directions e) (5 # 10)
     (player_last_seen_pos e) (search_mode e).

Definition with_base (e : t) (s : Tank.t) : t :=
  mk s (smart e) (ai_timer e) (ai_decision_interval e) (current_action e)
     (target_direction e) (stuck_counter e) (max_stuck_time e)
     (last_position e) (direction_change_timer e) (preferred_directions e)
     (shoot_probability e) (player_last_seen_pos e) (search_mode e).

Definition take_damage (e : t) : t :=
  with_base e (Tank.with_alive (base e) false).

Definition with_ai_timer (e : t) (n : Z) : t :=
  mk (base e) (smart e) n (ai_decision_interval e) (current_action e)
     (target_direction e) (stuck_counter e) (max_stuck_time e)
     (last_position e) (direction_change_timer e) (preferred_directions e)
     (shoot_probability e) (player_last_seen_pos e) (search_mode e).

Definition with_current_action (e : t) (a : string) : t :=
  mk (base e) (smart e) (ai_timer e) (ai_decision_interval e) a
     (target_direction e) (stuck_counter e) (max_stuck_time e)
     (last_position e) (direction_change_timer e) (preferred_directions e)
     (shoot_probability e) (player_last_seen_pos e) (search_mode e).

Definition with_target_direction (e : t) (d : Direction) : t :=
  mk (base e) (smart e) (ai_timer e) (ai_decision_interval e)
     (current_action e) d (stuck_counter e) (max_stuck_time e)
     (last_position e) (direction_change_timer e) (preferred_directions e)
     (shoot_probability e) (player_last_seen_pos e) (search_mode e).

Definition with_stuck_counter (e : t) (n : Z) : t :=
  mk (base e) (smart e) (ai_timer e) (ai_decision_interval e)
     (current_action e) (target_direction e) n (max_stuck_time e)
     (last_position e) (direction_change_timer e) (preferred_directions e)
     (shoot_probability e) (player_last_seen_pos e) (search_mode e).

Definition with_last_position (e : t) (pos : Z * Z) : t :=
  mk (base e) (smart e) (ai_timer e) (ai_decision_interval e)
     (current_action e) (target_direction e) (stuck_counter e)
     (max_stuck_time e) pos (direction_change_timer e)
     (preferred_directions e) (shoot_probability e)
     (player_last_seen_pos e) (search_mode e).

Definition with_direction_change_timer (e : t) (n : Z) : t :=
  mk (base e) (smart e) (ai_timer e) (ai_decision_interval e)
     (current_action e) (target_direction e) (stuck_counter e)
     (max_stuck_time e) (last_position e) n (preferred_directions e)
     (shoot_probability e) (player_last_seen_pos e) (search_mode e).

(** The value of [get_distance_to_player]: [float('inf')], or the
    floating-point square root of an exact integer. *)
Inductive Distance := Infinite | Root (n : Z).

Definition get_distance_to_player (e : t) (player_tank : PlayerTank.t)
  : Distance :=
  if negb (Tank.alive (PlayerTank.base player_tank)) then Infinite
  else
    let dx := Tank.x (base e) - Tank.x (PlayerTank.base player_tank) in
    let dy := Tank.y (base e) - Tank.y (PlayerTank.base player_tank) in
    Root (dx * dx + dy * dy).

(** [distance < limit].  The comparison of [math.sqrt n] with a limit is
    floating-point arithmetic; it is the parameter [sqrt_lt n limit]. *)
Definition nearer (sqrt_lt : Z -> Z -> bool) (d : Distance) (limit : Z) : bool :=
  match d with
  | Infinite => false
  | Root n => sqrt_lt n limit
  end.

(** The loop of [can_see_player] over the sampled points of a sightline:
    [False] at the first point that is not passable. *)
Fixpoint line_clear (passable : Z -> option bool) (points : list Z)
  : option bool :=
  match points with
  | [] => Some true
  | v :: rest =>
      p ← passable v;
      if negb p then Some false else line_clear passable rest
  end.

Definition can_see_player (e : t) (player_tank : PlayerTank.t)
    (game_map : GameMap.t) : option bool :=
  if negb (Tank.alive (PlayerTank.base player_tank)) then Some false
  else
    let dx := Tank.x (PlayerTank.base player_tank) - Tank.x (base e) in
    let dy := Tank.y (PlayerTank.base player_tank) - Tank.y (base e) in
    if Z.abs dx <? 10 then
      let step_y := if 0 <? dy then 1 else -1 in
      ys ← py_range (Tank.y (base e)) (Tank.y (PlayerTank.base player_tank))
             (step_y * 20);
      line_clear (fun y => GameMap.is_passable game_map (Tank.x (base e)) y) ys
    else if Z.abs dy <? 10 then
      let step_x := if 0 <? dx then 1 else -1 in
      xs ← py_range (Tank.x (base e)) (Tank.x (PlayerTank.base player_tank))
             (step_x * 20);
      line_clear (fun x => GameMap.is_passable game_map x (Tank.y (base e))) xs
    else Some false.

Definition get_direction_to_player (e : t) (player_tank : PlayerTank.t)
  : Direction :=
  if negb (Tank.alive (PlayerTank.base player_tank))
  then Tank.direction (base e)
  else
    let dx := Tank.x (PlayerTank.base player_tank) - Tank.x (base e) in
    let dy := Tank.y (PlayerTank.base player_tank) - Tank.y (base e) in
    if Z.abs dy <? Z.abs dx then (if 0 <? dx then RIGHT else LEFT)
    else (if 0 <? dy then DOWN else UP).

Definition choose_random_direction : M Direction :=
  random_choice [UP; DOWN; LEFT; RIGHT].

Definition is_stuck (e : t) : bool * t :=
  let current_pos := (Tank.x (base e), Tank.y (base e)) in
  let e1 :=
    if bool_decide (current_pos = last_position e)
    then with_stuck_counter e (stuck_counter e + 1)
    else with_last_position (with_stuck_counter e 0) current_pos in
  (max_stuck_time e1 <? stuck_counter e1, e1).

(** [make_ai_decision] of the class of [e]: the two methods differ in the
    two distance limits. *)
Definition make_ai_decision (sqrt_lt : Z -> Z -> bool) (e : t)
    (player_tank : PlayerTank.t) (game_map : GameMap.t)
  : M (string * Direction) :=
  (if negb (Tank.alive (PlayerTank.base player_tank)) then
     let* d := choose_random_direction in ret ("move", d)
   else
     let distance_to_player := get_distance_to_player e player_tank in
     let* can_see := lift (can_see_player e player_tank game_map) in
     if (can_see : bool) &&
        nearer sqrt_lt distance_to_player (if smart e then 250 else 200)
     then
       let target_dir := get_direction_to_player e player_tank in
       if bool_decide (Tank.direction (base e) = target_dir) then
         let* r := random_random in
         if Qlt_le_dec r (shoot_probability e) then ret ("shoot", target_dir)
         else ret ("turn", target_dir)
       else ret ("turn", target_dir)
     else if nearer sqrt_lt distance_to_player (if smart e then 400 else 300)
     then ret ("move", get_direction_to_player e player_tank)
     else
       let* d := choose_random_direction in ret ("move", d))%W.

(** [update(game_map, player_tank)] runs three stages on a living enemy
    whose timer has advanced.  First stage: a stuck enemy draws a new
    target direction and its counter restarts. *)
Definition unstick (e : t) : M t :=
  (let '(stuck, e2) := is_stuck e in
   if stuck then
     let* d := choose_random_direction in
     ret (with_stuck_counter (with_target_direction e2 d) 0)
   else ret e2)%W.

(** Second stage: when the timer has reached the interval a decision is
    taken and the timer restarts; [player_tank] may be [None]. *)
Definition decide (sqrt_lt : Z -> Z -> bool) (e : t) (game_map : GameMap.t)
    (player_tank : option PlayerTank.t) : M t :=
  (if ai_decision_interval e <=? ai_timer e then
     let* e' :=
       match player_tank with
       | Some player =>
           let* decision := make_ai_decision sqrt_lt e player game_map in
           ret (with_target_direction
                  (with_current_action e decision.1) decision.2)
       | None =>
           let* d := choose_random_direction in
           ret (with_target_direction (with_current_action e "move") d)
       end in
     ret (with_ai_timer e' 0)
   else ret e)%W.

(** Third stage: the current action is carried out. *)
Definition act (cfg : Config) (e : t) (game_map : GameMap.t)
  : M (option Bullet.t * t) :=
  (if bool_decide (current_action e = "move") then
     let* moved :=
       lift (Tank.move cfg (base e) (target_direction e) game_map) in
     let e5 := with_base e moved.2 in
     if negb moved.1 then
       let* d := choose_random_direction in
       ret (None, with_target_direction e5 d)
     else ret (None, e5)
   else if bool_decide (current_action e = "turn") then
     ret (None,
          with_current_action
            (with_base e (Tank.with_direction (base e) (target_direction e)))
            "move")
   else if bool_decide (current_action e = "shoot") then
     let e5 :=
       with_base e (Tank.with_direction (base e) (target_direction e)) in
     let* shot := Tank.shoot cfg (base e5) "enemy" in
     ret (shot.1, with_current_action (with_base e5 shot.2) "move")
   else ret (None, e))%W.

Definition update (sqrt_lt : Z -> Z -> bool) (cfg : Config) (e : t)
    (game_map : GameMap.t) (player_tank : option PlayerTank.t)
  : M (option Bullet.t * t) :=
  (if negb (Tank.alive (base e)) then ret (None, e)
   else
     let* e3 := unstick (with_ai_timer e (ai_timer e + 1)) in
     let* e4 := decide sqrt_lt e3 game_map player_tank in
     act cfg e4 game_map)%W.

Definition reset_ai (e : t) : t :=
  let e1 := with_ai_timer e 0 in
  let e2 := with_current_action e1 "move" in
  let e3 := with_target_direction e2 DOWN in
  let e4 := with_stuck_counter e3 0 in
  let e5 := with_last_position e4 (Tank.x (base e), Tank.y (base e)) in
  with_direction_change_timer e5 0.

End EnemyTank.

(** ** [game.py] *)

Module Game.

Record t := mk {
  game_state : string;
  score : Z;
  level : Z;
  game_map : GameMap.t;
  player_tank : PlayerTank.t;
  enemy_tanks : list EnemyTank.t;
  bullets : list Bullet.t;
  enemies_destroyed : Z;
  max_enemies_per_level : Z;
  enemy_spawn_timer : Z;
  enemy_spawn_positions : list (Z * Z)
}.

Definition with_game_map (g : t) (m : GameMap.t) : t :=
  mk (game_state g) (score g) (level g) m (player_tank g) (enemy_tanks g)
     (bullets g) (enemies_destroyed g) (max_enemies_per_level g)
     (enemy_spawn_timer g) (enemy_spawn_positions g).

Definition with_player_tank (g : t) (p : PlayerTank.t) : t :=
  mk (game_state g) (score g) (level g) (game_map g) p (enemy_tanks g)
     (bullets g) (enemies_destroyed g) (max_enemies_per_level g)
     (enemy_spawn_timer g) (enemy_spawn_positions g).

Definition with_enemy_tanks (g : t) (es : list EnemyTank.t) : t :=
  mk (game_state g) (score g) (level g) (game_map g) (player_tank g) es
     (bullets g) (enemies_destroyed g) (max_enemies_per_level g)
     (enemy_spawn_timer g) (enemy_spawn_positions g).

Definition with_bullets (g : t) (bs : list Bullet.t) : t :=
  mk (game_state g) (score g) (level g) (game_map g) (player_tank g)
     (enemy_tanks g) bs (enemies_destroyed g) (max_enemies_per_level g)
     (enemy_spawn_timer g) (enemy_spawn_positions g).

(** The three anchors set up by [Game.__init__]. *)
Definition spawn_positions (cfg : Config) : list (Z * Z) :=
  [ (SCREEN_WIDTH cfg - 60, 60);
    (SCREEN_WIDTH cfg - 120, 60);
    (SCREEN_WIDTH cfg - 60, 120) ].

(** The scan of [spawn_enemy] over the enemy list: does [spawn_rect] meet
    the square of an enemy that is alive? *)
Fixpoint spawn_blocked (spawn_rect : Rect.t) (es : list EnemyTank.t) : bool :=
  match es with
  | [] => false
  | enemy :: rest =>
      if Tank.alive (EnemyTank.base enemy) &&
         Rect.colliderect spawn_rect (Tank.get_rect (EnemyTank.base enemy))
      then true
      else spawn_blocked spawn_rect rest
  end.

Definition spawn_enemy (cfg : Config) (g : t) : M (bool * t) :=
  (if 5 <=? Z.of_nat (length (enemy_tanks g)) then ret (false, g)
   else
     let* spawn_pos := random_choice (enemy_spawn_positions g) in
     let '(x, y) := spawn_pos in
     let spawn_rect :=
       Rect.mk (x - TANK_SIZE cfg / 2) (y - TANK_SIZE cfg / 2)
               (TANK_SIZE cfg) (TANK_SIZE cfg) in
     if Tank.alive (PlayerTank.base (player_tank g)) &&
        Rect.colliderect spawn_rect
          (Tank.get_rect (PlayerTank.base (player_tank g)))
     then ret (false, g)
     else if spawn_blocked spawn_rect (enemy_tanks g) then ret (false, g)
     else
       let* r := random_random in
       let enemy :=
         if Qlt_le_dec r (4 # 10) then EnemyTank.init_smart cfg x y
         else EnemyTank.init cfg x y in
       ret (true, with_enemy_tanks g (enemy_tanks g ++ [enemy])))%W.

(** The scan of [check_collisions] over the enemies for a player bullet:
    the first living enemy the bullet meets is damaged and the scan stops. *)
Fixpoint hit_first_enemy (es : list EnemyTank.t) (bullet : Bullet.t)
  : list EnemyTank.t * Bullet.t :=
  match es with
  | [] => ([], bullet)
  | enemy :: rest =>
      let '(hit, bullet1) :=
        if Tank.alive (EnemyTank.base enemy)
        then Tank.check_collision_with_bullet (EnemyTank.base enemy) bullet
        else (false, bullet) in
      if hit then (EnemyTank.take_damage enemy :: rest, Bullet.destroy bullet1)
      else
        let '(rest', bullet2) := hit_first_enemy rest bullet1 in
        (enemy :: rest', bullet2)
  end.

(** The scan over the other bullets: position [j] of the first one that is
    another object than bullet [i], active, of another owner, and whose
    square meets that of [bullet]. *)
Fixpoint find_opposing (bullet : Bullet.t) (i j : nat) (others : list Bullet.t)
  : option nat :=
  match others with
  | [] => None
  | other_bullet :: rest =>
      if negb (Nat.eqb j i) && Bullet.active other_bullet &&
         negb (bool_decide (Bullet.owner other_bullet = Bullet.owner bullet)) &&
         Rect.colliderect (Bullet.get_rect bullet) (Bullet.get_rect other_bullet)
      then Some j
      else find_opposing bullet i (S j) rest
  end.

Definition bullet_vs_bullets (i : nat) (bs : list Bullet.t) : list Bullet.t :=
  match bs !! i with
  | None => bs
  | Some bullet =>
      match find_opposing bullet i 0 bs with
      | None => bs
      | Some j =>
          match bs !! j with
          | None => bs
          | Some other_bullet =>
              <[j := Bullet.destroy other_bullet]>
                (<[i := Bullet.destroy bullet]> bs)
          end
      end
  end.

(** The body of the loop of [check_collisions] for the bullet at position
    [i] of [self.bullets]. *)
Definition collide_bullet (i : nat) (g : t) : M t :=
  match bullets g !! i with
  | None => ret g
  | Some bullet =>
    (if negb (Bullet.active bullet) then ret g
     else
       let* on_map :=
         lift (GameMap.check_collision_with_rect (game_map g)
                 (Bullet.get_rect bullet)) in
       if on_map : bool then
         let* can :=
           lift (GameMap.can_destroy_tile (game_map g)
                   (Bullet.x bullet) (Bullet.y bullet)) in
         let* m1 :=
           if can : bool
           then lift (snd <$> GameMap.destroy_tile (game_map g)
                                (Bullet.x bullet) (Bullet.y bullet))
           else ret (game_map g) in
         ret (with_bullets (with_game_map g m1)
                (<[i := Bullet.destroy bullet]> (bullets g)))
       else
         let '(on_player, bullet1) :=
           if bool_decide (Bullet.owner bullet = "enemy") &&
              Tank.alive (PlayerTank.base (player_tank g))
           then Tank.check_collision_with_bullet
                  (PlayerTank.base (player_tank g)) bullet
           else (false, bullet) in
         if on_player then
           let* inv := PlayerTank.is_invulnerable (player_tank g) in
           let* p1 :=
             if negb inv then PlayerTank.take_damage (player_tank g)
             else ret (player_tank g) in
           ret (with_bullets (with_player_tank g p1)
                  (<[i := Bullet.destroy bullet1]> (bullets g)))
         else
           let '(es, bullet2) :=
             if bool_decide (Bullet.owner bullet1 = "player")
             then hit_first_enemy (enemy_tanks g) bullet1
             else (enemy_tanks g, bullet1) in
           ret (with_bullets (with_enemy_tanks g es)
                  (bullet_vs_bullets i (<[i := bullet2]> (bullets g)))))%W
  end.

Definition check_collisions (g : t) : M t :=
  for_range 0 (Z.of_nat (length (bullets g)))
    (fun i => collide_bullet (Z.to_nat i)) g.

Definition with_game_state (g : t) (st : string) : t :=
  mk st (score g) (level g) (game_map g) (player_tank g) (enemy_tanks g)
     (bullets g) (enemies_destroyed g) (max_enemies_per_level g)
     (enemy_spawn_timer g) (enemy_spawn_positions g).

Definition with_score (g : t) (n : Z) : t :=
  mk (game_state g) n (level g) (game_map g) (player_tank g) (enemy_tanks g)
     (bullets g) (enemies_destroyed g) (max_enemies_per_level g)
     (enemy_spawn_timer g) (enemy_spawn_positions g).

Definition with_level (g : t) (n : Z) : t :=
  mk (game_state g) (score g) n (game_map g) (player_tank g) (enemy_tanks g)
     (bullets g) (enemies_destroyed g) (max_enemies_per_level g)
     (enemy_spawn_timer g) (enemy_spawn_positions g).

Definition with_enemies_destroyed (g : t) (n : Z) : t :=
  mk (game_state g) (score g) (level g) (game_map g) (player_tank g)
     (enemy_tanks g) (bullets g) n (max_enemies_per_level g)
     (enemy_spawn_timer g) (enemy_spawn_positions g).

Definition with_max_enemies_per_level (g : t) (n : Z) : t :=
  mk (game_state g) (score g) (level g) (game_map g) (player_tank g)
     (enemy_tanks g) (bullets g) (enemies_destroyed g) n
     (enemy_spawn_timer g) (enemy_spawn_positions g).

Definition with_enemy_spawn_timer (g : t) (n : Z) : t :=
  mk (game_state g) (score g) (level g) (game_map g) (player_tank g)
     (enemy_tanks g) (bullets g) (enemies_destroyed g)
     (max_enemies_per_level g) n (enemy_spawn_positions g).

(** One round of the loop of [spawn_initial_enemies]. *)
Definition spawn_initial (cfg : Config) (i : Z) (g : t) : M t :=
  (if i <? Z.of_nat (length (enemy_spawn_positions g)) then
     let* pos := lift (py_getitem (enemy_spawn_positions g) i) in
     let '(x, y) := pos in
     let* r := random_random in
     let enemy :=
       if Qlt_le_dec r (3 # 10) then EnemyTank.init_smart cfg x y
       else EnemyTank.init cfg x y in
     ret (with_enemy_tanks g (enemy_tanks g ++ [enemy]))
   else ret g)%W.

Definition spawn_initial_enemies (cfg : Config) (g : t) : M t :=
  for_range 0 (Z.min 3 (max_enemies_per_level g)) (spawn_initial cfg) g.

(** [init_game]: the map, the player and the enemy and bullet lists are
    replaced; state, score, level and quota are those of [g]. *)
Definition init_game (cfg : Config) (g : t) : M t :=
  (let* m := GameMap.init cfg in
   let player_start_x := TILE_SIZE cfg * 2 in
   let player_start_y := SCREEN_HEIGHT cfg - TILE_SIZE cfg * 2 in
   let player :=
     PlayerTank.init cfg player_start_x player_start_y (PLAYER_LIVES cfg) in
   let g1 :=
     with_bullets
       (with_enemy_tanks (with_player_tank (with_game_map g m) player) []) [] in
   let* g2 := spawn_initial_enemies cfg g1 in
   ret (with_enemy_spawn_timer (with_enemies_destroyed g2 0) 0))%W.

Definition init_next_level (cfg : Config) (g : t) : M t :=
  (let* m := GameMap.generate_map (game_map g) in
   let s := PlayerTank.base (player_tank g) in
   let s1 :=
     Tank.with_alive
       (Tank.with_direction
          (Tank.with_pos s (TILE_SIZE cfg * 2)
             (SCREEN_HEIGHT cfg - TILE_SIZE cfg * 2))
          UP)
       true in
   let g1 :=
     with_enemy_tanks
       (with_bullets
          (with_player_tank (with_game_map g m)
             (PlayerTank.with_base (player_tank g) s1))
          [])
       [] in
   let* g2 := spawn_initial_enemies cfg g1 in
   let* current := get_ticks in
   ret (with_enemy_spawn_timer (with_enemies_destroyed g2 0) current))%W.

Definition restart_game (cfg : Config) (g : t) : M t :=
  init_game cfg
    (with_max_enemies_per_level
       (with_level (with_score (with_game_state g "playing") 0) 1)
       (ENEMY_COUNT cfg)).

Definition check_game_over (cfg : Config) (g : t) : M t :=
  (if negb (Tank.alive (PlayerTank.base (player_tank g))) &&
      (PlayerTank.lives (player_tank g) <=? 0)
   then ret (with_game_state g "game_over")
   else if (Z.of_nat (length (enemy_tanks g)) =? 0) &&
           (max_enemies_per_level g <=? enemies_destroyed g)
   then
     let g1 :=
       with_max_enemies_per_level (with_level g (level g + 1))
         (max_enemies_per_level g + 1) in
     if 5 <? level g1 then ret (with_game_state g1 "victory")
     else init_next_level cfg g1
   else ret g)%W.

(** The loop of [handle_events] over the pending events; [False] asks the
    main loop to stop and leaves the later events unread. *)
Fixpoint handle_events (cfg : Config) (events : list Event) (g : t)
  : M (bool * t) :=
  match events with
  | [] => ret (true, g)
  | QUIT :: _ => ret (false, g)
  | KEYDOWN K_ESCAPE :: _ => ret (false, g)
  | KEYDOWN K_r :: rest =>
      if bool_decide (game_state g = "game_over") ||
         bool_decide (game_state g = "victory")
      then bind (restart_game cfg g) (handle_events cfg rest)
      else handle_events cfg rest g
  | KEYDOWN K_p :: rest =>
      if bool_decide (game_state g = "playing")
      then handle_events cfg rest (with_game_state g "paused")
      else if bool_decide (game_state g = "paused")
      then handle_events cfg rest (with_game_state g "playing")
      else handle_events cfg rest g
  | _ :: rest => handle_events cfg rest g
  end.

(** The loop of [update] over a copy of the enemy list: a living enemy is
    updated in place and its bullet collected, a dead one is removed and
    counted.  [kept] is the part of [self.enemy_tanks] already passed. *)
Fixpoint update_enemies (sqrt_lt : Z -> Z -> bool) (cfg : Config)
    (snapshot kept : list EnemyTank.t) (g : t) : M t :=
  match snapshot with
  | [] => ret (with_enemy_tanks g kept)
  | enemy :: rest =>
      if Tank.alive (EnemyTank.base enemy) then
        bind (EnemyTank.update sqrt_lt cfg enemy (game_map g)
                (Some (player_tank g)))
             (fun r =>
                update_enemies sqrt_lt cfg rest (kept ++ [r.2])
                  (match r.1 with
                   | Some bullet => with_bullets g (bullets g ++ [bullet])
                   | None => g
                   end))
      else
        update_enemies sqrt_lt cfg rest kept
          (with_score
             (with_enemies_destroyed g (enemies_destroyed g + 1))
             (score g + 100))
  end.

(** The stages of [update].  The player: its input is handled while it is
    alive and its bullet, if any, joins the list. *)
Definition update_player (cfg : Config) (keys : Keys) (g : t) : M t :=
  (if Tank.alive (PlayerTank.base (player_tank g)) then
     let* r :=
       PlayerTank.handle_input cfg (player_tank g) keys (game_map g) in
     ret (match r.1 with
          | Some bullet =>
              with_bullets (with_player_tank g r.2) (bullets g ++ [bullet])
          | None => with_player_tank g r.2
          end)
   else ret g)%W.

(** Reinforcements: with fewer than three enemies and the delay passed, a
    spawn is attempted, and the timer restarts when it succeeds. *)
Definition update_spawn (cfg : Config) (g : t) : M t :=
  (let* current_time := get_ticks in
   if (Z.of_nat (length (enemy_tanks g)) <? 3) &&
      (ENEMY_SPAWN_DELAY cfg <? current_time - enemy_spawn_timer g)
   then
     let* r := spawn_enemy cfg g in
     if r.1 : bool then ret (with_enemy_spawn_timer r.2 current_time)
     else ret r.2
   else ret g)%W.

(** The bullets: each one flies on, those that are inactive afterwards
    leave the list. *)
Definition update_bullets (cfg : Config) (g : t) : t :=
  with_bullets g
    (filter (fun b => Bullet.active b = true)
       (map (Bullet.update cfg) (bullets g))).

Definition update (sqrt_lt : Z -> Z -> bool) (cfg : Config) (keys : Keys)
    (g : t) : M t :=
  (if negb (bool_decide (game_state g = "playing")) then ret g
   else
     let* g1 := update_player cfg keys g in
     let* g2 := update_enemies sqrt_lt cfg (enemy_tanks g1) [] g1 in
     let* g3 := update_spawn cfg g2 in
     let* g5 := check_collisions (update_bullets cfg g3) in
     check_game_over cfg g5)%W.

(** [Game.__init__]: the attributes get their first values and [init_game]
    builds the map, the player and the first enemies.  Map and player are
    [None] until then; [init_game] replaces both without reading them, so
    the values that stand for [None] here are never looked at.  The
    window, the clock object and the fonts serve the drawing only. *)
Definition init (cfg : Config) : M t :=
  init_game cfg
    (mk "playing" 0 1 (GameMap.blank cfg) (PlayerTank.init cfg 0 0 0) [] []
        0 (ENEMY_COUNT cfg) 0 (spawn_positions cfg)).


End Game.

(** ** Shape of the grid and concrete data for evaluation *)

(** [d] has [h] rows of [w] cells. *)
Definition grid_shape {A} (h w : Z) (d : list (list A)) : Prop :=
  Z.of_nat (length d) = h ∧ Forall (fun row => Z.of_nat (length row) = w) d.

(** What [GameMap.__init__] establishes and every method keeps: a tile size
    one can divide by and a grid of [height] rows of [width] cells. *)
Definition well_formed (m : GameMap.t) : Prop :=
  GameMap.tile_size m ≠ 0 ∧
  grid_shape (GameMap.height m) (GameMap.width m) (GameMap.map_data m).

(** The tile coordinates of a pixel position lie inside the grid. *)
Definition on_grid (m : GameMap.t) (x y : Z) : Prop :=
  0 <= x / GameMap.tile_size m < GameMap.width m ∧
  0 <= y / GameMap.tile_size m < GameMap.height m.

(** The bounds test shared by [get_tile_at_position] and [destroy_tile]. *)
Definition grid_test (m : GameMap.t) (tile_x tile_y : Z) : bool :=
  (0 <=? tile_x) && (tile_x <? GameMap.width m) &&
  (0 <=? tile_y) && (tile_y <? GameMap.height m).

(** A configuration to evaluate the model on: an 800x600 screen of
    20x15 tiles of 40 pixels, screen coordinates with [y] growing downwards. *)
Definition demo_directions (d : Direction) : Z * Z :=
  match d with
  | UP => (0, -1)
  | DOWN => (0, 1)
  | LEFT => (-1, 0)
  | RIGHT => (1, 0)
  end.

Definition demo_config : Config :=
  mkConfig 800 600 40 20 15 30 2 5 4 3 3 3000 demo_directions
           (0, 255, 0) (0, 255, 0) (255, 0, 0).

(** A world whose clock returns [times] in turn and whose random source
    returns [draws] in turn (and 0 afterwards). *)
Definition world_of (times draws : list Z) : World :=
  mkWorld (fun k => nth k times 0) 0 (fun k => nth k draws 0) 0.

(** A 5x4 arena of 40-pixel tiles: steel border, one brick at row 1,
    column 2, grass at row 2, column 3. *)
Definition demo_grid : list (list Tile) :=
  [ [STEEL_WALL; STEEL_WALL; STEEL_WALL; STEEL_WALL; STEEL_WALL];
    [STEEL_WALL; EMPTY;      BRICK_WALL; EMPTY;      STEEL_WALL];
    [STEEL_WALL; EMPTY;      EMPTY;      GRASS;      STEEL_WALL];
    [STEEL_WALL; STEEL_WALL; STEEL_WALL; STEEL_WALL; STEEL_WALL] ].

Definition demo_map : GameMap.t := GameMap.mk 5 4 40 demo_grid.

(** A new tank in the open cell of [demo_map], the same tank with its
    square touching the steel row at the top, and the same tank destroyed. *)
Definition demo_tank : Tank.t := Tank.init demo_config 60 60 UP (0, 255, 0).


Definition demo_wreck : Tank.t := Tank.take_damage demo_tank.

(** A player with [lives0] lives left whose respawn anchor is [(80, 520)]
    and who has driven to [(300, 200)] facing left; its protection runs out
    when the clock reaches [until]. *)
Definition demo_player (lives0 until : Z) : PlayerTank.t :=
  let p := PlayerTank.init demo_config 80 520 3 in
  PlayerTank.with_invulnerable_time
    (PlayerTank.with_lives
       (PlayerTank.with_base p
          (Tank.with_direction (Tank.with_pos (PlayerTank.base p) 300 200) LEFT))
       lives0)
    until.

(** The position is inside the screen rectangle, edges included. *)
Definition in_bounds (cfg : Config) (x y : Z) : Prop :=
  0 <= x <= SCREEN_WIDTH cfg ∧ 0 <= y <= SCREEN_HEIGHT cfg.

(** A world whose random source keeps changing. *)
Definition demo_world : World :=
  mkWorld (fun _ => 0) 0 (fun k => Z.of_nat k * 3002399751580331) 0.

(** The 20x15 arena of [demo_config]: a steel ring around open ground and
    one brick at row 5, column 5 (pixels 200..239 both ways). *)
Definition demo_arena : GameMap.t :=
  let ring := replicate 20 STEEL_WALL in
  let open := STEEL_WALL :: replicate 18 EMPTY ++ [STEEL_WALL] in
  GameMap.mk 20 15 40
    (<[5%nat := <[5%nat := BRICK_WALL]> open]>
       (ring :: replicate 13 open ++ [ring])).

Definition demo_game (player : PlayerTank.t) (enemies : list EnemyTank.t)
    (bs : list Bullet.t) : Game.t :=
  Game.mk "playing" 0 1 demo_arena player enemies bs 0 3 0
          (Game.spawn_positions demo_config).

(** The player at its start anchor, and a player that has lost its last
    life while standing on the first spawn anchor [(740, 60)]. *)
Definition demo_start_player : PlayerTank.t :=
  PlayerTank.init demo_config 80 520 3.

Definition demo_dead_player : PlayerTank.t :=
  PlayerTank.with_lives
    (PlayerTank.with_base demo_start_player
       (Tank.with_alive
          (Tank.with_pos (PlayerTank.base demo_start_player) 740 60) false))
    0.

(** A frame in which a player bullet, first in the bullet list, overlaps a
    living enemy and an enemy bullet at once, on open ground. *)
Definition demo_clash : Game.t :=
  demo_game demo_start_player
    [EnemyTank.init demo_config 400 300]
    [Bullet.init demo_config 386 300 RIGHT "player";
     Bullet.init demo_config 388 300 LEFT "enemy"].

(** A frame in which a player bullet overlaps the brick of [demo_arena]
    (its centre is inside it) and a living enemy standing next to it. *)
Definition demo_brick_and_enemy : Game.t :=
  demo_game demo_start_player
    [EnemyTank.init demo_config 255 220]
    [Bullet.init demo_config 239 220 RIGHT "player"].

(** What a test observes of a game: which enemies are alive and which
    bullets are active. *)
Definition alive_flags (g : Game.t) : list bool * list bool :=
  (map (fun e => Tank.alive (EnemyTank.base e)) (Game.enemy_tanks g),
   map Bullet.active (Game.bullets g)).

(** The direction a key snapshot asks for: the first pair of keys that is
    held, in the order Up, Down, Left, Right. *)
Definition first_pressed (keys : Keys) : option Direction :=
  if K_UP keys || K_w keys then Some UP
  else if K_DOWN keys || K_s keys then Some DOWN
  else if K_LEFT keys || K_a keys then Some LEFT
  else if K_RIGHT keys || K_d keys then Some RIGHT
  else None.

(** Up and Left held together with the fire key; nothing held. *)
Definition demo_keys : Keys :=
  mkKeys true false false false true false false false true.


(** Two players are the same make: they agree on every field that no method
    assigns after construction. *)
Definition same_make (p q : PlayerTank.t) : Prop :=
  Tank.color (PlayerTank.base p) = Tank.color (PlayerTank.base q) ∧
  Tank.size (PlayerTank.base p) = Tank.size (PlayerTank.base q) ∧
  Tank.speed (PlayerTank.base p) = Tank.speed (PlayerTank.base q) ∧
  Tank.shot_cooldown (PlayerTank.base p) = Tank.shot_cooldown (PlayerTank.base q) ∧
  Tank.moving (PlayerTank.base p) = Tank.moving (PlayerTank.base q) ∧
  Tank.target_x (PlayerTank.base p) = Tank.target_x (PlayerTank.base q) ∧
  Tank.target_y (PlayerTank.base p) = Tank.target_y (PlayerTank.base q) ∧
  PlayerTank.max_lives p = PlayerTank.max_lives q ∧
  PlayerTank.invulnerable_duration p = PlayerTank.invulnerable_duration q ∧
  PlayerTank.respawn_x p = PlayerTank.respawn_x q ∧
  PlayerTank.respawn_y p = PlayerTank.respawn_y q.

(** Where an enemy stands. *)
Definition enemy_pos (e : EnemyTank.t) : Z * Z :=
  (Tank.x (EnemyTank.base e), Tank.y (EnemyTank.base e)).

(** The enemy after a call of [is_stuck]. *)
Definition after_is_stuck (e : EnemyTank.t) : EnemyTank.t :=
  (EnemyTank.is_stuck e).2.

(** Cells of an [h] x [w] grid, by row [y] and column [x]: the cells of the
    grid, its border ring, and the two zones that the random fill skips. *)
Definition inside (h w y x : Z) : Prop := 0 <= y < h ∧ 0 <= x < w.

Definition border (h w y x : Z) : Prop :=
  inside h w y x ∧ (y = 0 ∨ y = h - 1 ∨ x = 0 ∨ x = w - 1).

Definition player_zone (h w y x : Z) : Prop :=
  h - 4 <= y <= h - 1 ∧ 0 <= x <= 3.

Definition enemy_zone (h w y x : Z) : Prop :=
  0 <= y <= 3 ∧ w - 4 <= x <= w - 1.

(** The grid has the shape [h] x [w] and every cell satisfies [R]. *)
Definition cells_ok (h w : Z) (R : Z -> Z -> Tile -> Prop)
    (d : list (list Tile)) : Prop :=
  grid_shape h w d ∧
  ∀ y x t, inside h w y x -> py_getitem2 d y x = Some t -> R y x t.

(** The cells the random fill may write, and those the cross may write. *)
Definition fill_target (h w y x : Z) : Prop :=
  2 <= y < h - 2 ∧ 2 <= x < w - 2 ∧
  ¬ (h - 4 <= y ∧ x <= 3) ∧ ¬ (y <= 3 ∧ w - 4 <= x).

Definition cross_target (h w y x : Z) : Prop :=
  (y = h / 2 ∧ w / 2 - 2 <= x <= w / 2 + 2 ∧ 1 < x < w - 1) ∨
  (x = w / 2 ∧ h / 2 - 2 <= y <= h / 2 + 2 ∧ 1 < y < h - 1).

(** The cells of a cross centred at row [cy], column [cx] that the loop has
    written before it handles the offset [i]. *)
Definition cross_cells (h w cy cx i y x : Z) : Prop :=
  (y = cy ∧ cx - 2 <= x < cx + i ∧ 1 < x < w - 1) ∨
  (x = cx ∧ cy - 2 <= y < cy + i ∧ 1 < y < h - 1).

(** What holds of every cell once the cross has been laid up to offset
    [i]. *)
Definition layout (h w cy cx i : Z) (y x : Z) (t : Tile) : Prop :=
  (border h w y x -> t = STEEL_WALL) ∧
  (¬ border h w y x -> ¬ fill_target h w y x ->
   ¬ cross_cells h w cy cx 3 y x -> t = EMPTY) ∧
  t ≠ GRASS ∧
  (cross_cells h w cy cx i y x -> t = BRICK_WALL).

(** The configuration fits a map: the screen is [MAP_HEIGHT] rows of
    [TILE_SIZE] pixels, the map is at least 6 cells wide and 7 cells
    high, and a tank is at most two tiles wide. *)
Definition fits (cfg : Config) : Prop :=
  0 < TILE_SIZE cfg ∧
  SCREEN_HEIGHT cfg = MAP_HEIGHT cfg * TILE_SIZE cfg ∧
  6 <= MAP_WIDTH cfg ∧ 7 <= MAP_HEIGHT cfg ∧
  0 <= TANK_SIZE cfg <= 2 * TILE_SIZE cfg.

(** The map of a game is the one of the configuration. *)
Definition map_of (cfg : Config) (m : GameMap.t) : Prop :=
  GameMap.width m = MAP_WIDTH cfg ∧
  GameMap.height m = MAP_HEIGHT cfg ∧
  GameMap.tile_size m = TILE_SIZE cfg ∧
  grid_shape (MAP_HEIGHT cfg) (MAP_WIDTH cfg) (GameMap.map_data m).

(** A level has just been set up: counters and bullets cleared, the first
    enemies on their anchors, the player alive at its start anchor facing
    up, on a map of the configured size where its square is free. *)
Definition fresh_level (cfg : Config) (g : Game.t) : Prop :=
  Game.enemies_destroyed g = 0 ∧
  Game.bullets g = [] ∧
  map enemy_pos (Game.enemy_tanks g) =
    take (Z.to_nat (Z.min 3 (Game.max_enemies_per_level g)))
         (Game.enemy_spawn_positions g) ∧
  Forall (fun e => Tank.alive (EnemyTank.base e) = true) (Game.enemy_tanks g) ∧
  Tank.alive (PlayerTank.base (Game.player_tank g)) = true ∧
  Tank.direction (PlayerTank.base (Game.player_tank g)) = UP ∧
  Tank.x (PlayerTank.base (Game.player_tank g)) = TILE_SIZE cfg * 2 ∧
  Tank.y (PlayerTank.base (Game.player_tank g)) =
    SCREEN_HEIGHT cfg - TILE_SIZE cfg * 2 ∧
  map_of cfg (Game.game_map g) ∧
  GameMap.check_collision_with_rect (Game.game_map g)
    (Tank.get_rect (PlayerTank.base (Game.player_tank g))) = Some false.

(** A game whose level is complete: no enemy left, three kills for a quota
    of three. *)
Definition demo_level_done : Game.t :=
  Game.with_enemies_destroyed (demo_game demo_start_player [] []) 3.

(** What a batch of events asks for: the number of presses of P read
    before the batch asks to quit, and whether it never asks to quit. *)
Fixpoint pauses (events : list Event) : nat :=
  match events with
  | [] => 0
  | QUIT :: _ => 0
  | KEYDOWN K_ESCAPE :: _ => 0
  | KEYDOWN K_p :: rest => S (pauses rest)
  | _ :: rest => pauses rest
  end.

Fixpoint keeps_running (events : list Event) : bool :=
  match events with
  | [] => true
  | QUIT :: _ => false
  | KEYDOWN K_ESCAPE :: _ => false
  | _ :: rest => keeps_running rest
  end.

Definition toggled (st : string) : string :=
  if bool_decide (st = "playing") then "paused" else "playing".

(** The points that [can_see_player] samples between [a], the coordinate of
    the enemy (included), and [b], that of the player (excluded): 20 pixels
    apart, walking towards [b]. *)
Definition sample (a b k : Z) : Z :=
  if 0 <? b - a then a + 20 * k else a - 20 * k.

Definition sampled (a b k : Z) : Prop := 0 <= k ∧ 20 * k < Z.abs (b - a).


(** The number of destroyed enemies in a list. *)
Definition wrecks (es : list EnemyTank.t) : Z :=
  Z.of_nat
    (length (filter (fun e => Tank.alive (EnemyTank.base e) = false) es)).

(** What the collision pass may do to an enemy, a bullet and the map: an
    enemy is left alone or destroyed, a bullet is left alone or
    deactivated, the map keeps its dimensions and every position reads as
    before or reads empty where it read brick. *)
Definition worn (e e' : EnemyTank.t) : Prop :=
  e' = e ∨ e' = EnemyTank.take_damage e.

Definition spent (b b' : Bullet.t) : Prop :=
  b' = b ∨ b' = Bullet.destroy b.

Definition map_worn (m m' : GameMap.t) : Prop :=
  GameMap.width m' = GameMap.width m ∧
  GameMap.height m' = GameMap.height m ∧
  GameMap.tile_size m' = GameMap.tile_size m ∧
  grid_shape (GameMap.height m) (GameMap.width m) (GameMap.map_data m') ∧
  ∀ x y,
    GameMap.get_tile_at_position m' x y = GameMap.get_tile_at_position m x y ∨
    (GameMap.get_tile_at_position m x y = Some BRICK_WALL ∧
     GameMap.get_tile_at_position m' x y = Some EMPTY).

(** What the collision pass may do to a game: state, score, level and the
    counters stay; map, enemies and bullets change as above, entry by
    entry; the player keeps its make and gains no life. *)
Definition collided (g g' : Game.t) : Prop :=
  ∃ m p es bs,
    g' = Game.mk (Game.game_state g) (Game.score g) (Game.level g) m p es bs
           (Game.enemies_destroyed g) (Game.max_enemies_per_level g)
           (Game.enemy_spawn_timer g) (Game.enemy_spawn_positions g) ∧
    map_worn (Game.game_map g) m ∧
    same_make p (Game.player_tank g) ∧
    PlayerTank.lives p <= PlayerTank.lives (Game.player_tank g) ∧
    Forall2 worn (Game.enemy_tanks g) es ∧
    Forall2 spent (Game.bullets g) bs.

(** What a frame needs of the game it starts from, and keeps: a map of the
    configured size and at least one spawn anchor. *)
Definition frame_ok (cfg : Config) (g : Game.t) : Prop :=
  map_of cfg (Game.game_map g) ∧ Game.enemy_spawn_positions g ≠ [].


(** An enemy at [(400, 300)] of [demo_arena], facing down, and a player
    100 pixels below it, 5 pixels to the right. *)
Definition demo_hunter : EnemyTank.t := EnemyTank.init demo_config 400 300.

Definition demo_target : PlayerTank.t := PlayerTank.init demo_config 405 400 3.

(** * Properties *)

(** Proof steps used throughout: a concrete map is well formed; facts
    about cells reduce to linear arithmetic after a few case splits. *)
Ltac solve_well_formed :=
  split; [done | split; [reflexivity | repeat constructor]].

Ltac cell_cases :=
  repeat match goal with
         | H : ?P -> ?Q |- _ =>
             lazymatch Q with False => fail | _ => idtac end;
             let c := fresh in
             first
               [ assert (c : P) by lia; specialize (H c)
               | assert (c : ¬ P) by lia; clear H
               | assert (c : P ∨ ¬ P) by lia;
                 destruct c as [c | c]; [specialize (H c) | clear H] ]
         end.

Ltac cell_arith :=
  unfold border, player_zone, enemy_zone, fill_target, cross_target, inside
    in *;
  cbv beta in *; intros;
  intuition (subst; try congruence; try lia;
             cell_cases; try congruence; try lia).

(** ** Python subscripts *)

Section Subscripts.
Context {A : Type}.
Implicit Types (l : list A).

Lemma py_index_in_range (len : nat) (i : Z) :
  0 <= i < Z.of_nat len -> py_index len i = Some (Z.to_nat i).
Proof.
  intros Hi. unfold py_index.
  destruct (Z.leb_spec 0 i); [|lia].
  destruct (Z.ltb_spec i (Z.of_nat len)); [|lia]. reflexivity.
Qed.

Lemma py_getitem_in_range l (i : Z) :
  0 <= i < Z.of_nat (length l) -> py_getitem l i = l !! Z.to_nat i.
Proof. intros Hi. unfold py_getitem. by rewrite py_index_in_range. Qed.

Lemma py_setitem_in_range l (i : Z) (v : A) :
  0 <= i < Z.of_nat (length l) ->
  py_setitem l i v = Some (<[Z.to_nat i := v]> l).
Proof. intros Hi. unfold py_setitem. by rewrite py_index_in_range. Qed.

End Subscripts.

(** ** Grids *)

Section Grids.
Context {A : Type}.
Implicit Types (g : list (list A)).

Lemma grid_row (h w : Z) g (y : Z) :
  grid_shape h w g -> 0 <= y < h ->
  ∃ row, g !! Z.to_nat y = Some row ∧ Z.of_nat (length row) = w.
Proof.
  intros [Hlen Hrows] Hy.
  destruct (lookup_lt_is_Some_2 g (Z.to_nat y)) as [row Hrow]; [lia|].
  exists row. split; [done|].
  by apply (Forall_lookup_1 _ _ _ _ Hrows Hrow).
Qed.

Lemma py_getitem2_row g (y x : Z) (row : list A) :
  0 <= y < Z.of_nat (length g) -> g !! Z.to_nat y = Some row ->
  py_getitem2 g y x = py_getitem row x.
Proof.
  intros Hy Hrow. unfold py_getitem2.
  rewrite py_getitem_in_range by done. rewrite Hrow. reflexivity.
Qed.

Lemma py_setitem2_row g (y x : Z) (v : A) (row : list A) :
  0 <= y < Z.of_nat (length g) -> g !! Z.to_nat y = Some row ->
  0 <= x < Z.of_nat (length row) ->
  py_setitem2 g y x v = Some (<[Z.to_nat y := <[Z.to_nat x := v]> row]> g).
Proof.
  intros Hy Hrow Hx. unfold py_setitem2.
  rewrite py_getitem_in_range by done. rewrite Hrow.
  change (py_setitem row x v ≫= (fun row' => py_setitem g y row') = 
          Some (<[Z.to_nat y := <[Z.to_nat x := v]> row]> g)).
  rewrite py_setitem_in_range by done.
  change (py_setitem g y (<[Z.to_nat x := v]> row) =
          Some (<[Z.to_nat y := <[Z.to_nat x := v]> row]> g)).
  by rewrite py_setitem_in_range.
Qed.

Lemma py_getitem2_in_range (h w : Z) g (y x : Z) :
  grid_shape h w g -> 0 <= y < h -> 0 <= x < w ->
  ∃ v, py_getitem2 g y x = Some v.
Proof.
  intros Hs Hy Hx.
  destruct (grid_row h w g y Hs Hy) as (row & Hrow & Hw).
  destruct (lookup_lt_is_Some_2 row (Z.to_nat x)) as [v Hv]; [lia|].
  exists v. destruct Hs as [Hlen _].
  rewrite (py_getitem2_row g y x row) by (done || lia).
  by rewrite py_getitem_in_range by lia.
Qed.

(** [g[y][x] = v] inside the grid succeeds, keeps the shape, stores [v] and
    leaves every other cell as it was. *)
Lemma py_setitem2_in_range (h w : Z) g (y x : Z) (v : A) :
  grid_shape h w g -> 0 <= y < h -> 0 <= x < w ->
  ∃ g', py_setitem2 g y x v = Some g' ∧ grid_shape h w g' ∧
        py_getitem2 g' y x = Some v ∧
        ∀ y' x', 0 <= y' < h -> 0 <= x' < w -> (y', x') ≠ (y, x) ->
                 py_getitem2 g' y' x' = py_getitem2 g y' x'.
Proof.
  intros Hs Hy Hx.
  destruct (grid_row h w g y Hs Hy) as (row & Hrow & Hw).
  destruct Hs as [Hlen Hrows].
  exists (<[Z.to_nat y := <[Z.to_nat x := v]> row]> g).
  assert (Hshape : grid_shape h w (<[Z.to_nat y := <[Z.to_nat x := v]> row]> g)).
  { split; [by rewrite length_insert|].
    apply Forall_insert; [done|]. by rewrite length_insert. }
  split; [|split; [done|split]].
  - apply py_setitem2_row; (done || lia).
  - rewrite (py_getitem2_row _ y x (<[Z.to_nat x := v]> row)).
    + rewrite py_getitem_in_range by (rewrite length_insert; lia).
      apply list_lookup_insert_eq. lia.
    + rewrite length_insert. lia.
    + apply list_lookup_insert_eq. lia.
  - intros y' x' Hy' Hx' Hne.
    destruct (decide (y' = y)) as [->|Hyy].
    + rewrite (py_getitem2_row _ y x' (<[Z.to_nat x := v]> row));
        [|rewrite length_insert; lia|apply list_lookup_insert_eq; lia].
      rewrite (py_getitem2_row g y x' row) by (done || lia).
      rewrite !py_getitem_in_range by (rewrite ?length_insert; lia).
      apply list_lookup_insert_ne. intros Heq. apply Hne. f_equal. lia.
    + unfold py_getitem2.
      rewrite !py_getitem_in_range by (rewrite ?length_insert; lia).
      by rewrite list_lookup_insert_ne by lia.
Qed.

End Grids.

(** ** Map queries *)

Lemma py_floordiv_nonzero (a b : Z) : b ≠ 0 -> py_floordiv a b = Some (a / b).
Proof.
  intros Hb. unfold py_floordiv. by destruct (Z.eqb_spec b 0).
Qed.

Lemma grid_test_on (m : GameMap.t) (x y : Z) :
  on_grid m x y ->
  grid_test m (x / GameMap.tile_size m) (y / GameMap.tile_size m) = true.
Proof.
  unfold on_grid, grid_test. intros [[? ?] [? ?]].
  repeat (apply andb_true_intro; split);
    (apply Z.leb_le || apply Z.ltb_lt); done.
Qed.

Lemma grid_test_off (m : GameMap.t) (x y : Z) :
  ¬ on_grid m x y ->
  grid_test m (x / GameMap.tile_size m) (y / GameMap.tile_size m) = false.
Proof.
  intros Hoff. apply not_true_is_false. intros Hon. apply Hoff.
  unfold grid_test in Hon. unfold on_grid.
  repeat (apply andb_prop in Hon; destruct Hon as [Hon ?]).
  repeat split; (by apply Z.leb_le) || (by apply Z.ltb_lt).
Qed.

Lemma get_tile_unfold (m : GameMap.t) (x y : Z) :
  GameMap.tile_size m ≠ 0 ->
  GameMap.get_tile_at_position m x y =
  if grid_test m (x / GameMap.tile_size m) (y / GameMap.tile_size m)
  then py_getitem2 (GameMap.map_data m)
         (y / GameMap.tile_size m) (x / GameMap.tile_size m)
  else Some STEEL_WALL.
Proof.
  intros Hts. unfold GameMap.get_tile_at_position.
  rewrite !py_floordiv_nonzero by done. reflexivity.
Qed.

Lemma destroy_tile_unfold (m : GameMap.t) (x y : Z) :
  GameMap.tile_size m ≠ 0 ->
  GameMap.destroy_tile m x y =
  if grid_test m (x / GameMap.tile_size m) (y / GameMap.tile_size m)
  then
    py_getitem2 (GameMap.map_data m)
      (y / GameMap.tile_size m) (x / GameMap.tile_size m) ≫= fun cur =>
    if bool_decide (cur = BRICK_WALL) then
      py_setitem2 (GameMap.map_data m)
        (y / GameMap.tile_size m) (x / GameMap.tile_size m) EMPTY ≫= fun d =>
      Some (true, GameMap.with_map_data m d)
    else Some (false, m)
  else Some (false, m).
Proof.
  intros Hts. unfold GameMap.destroy_tile.
  rewrite !py_floordiv_nonzero by done. reflexivity.
Qed.

Lemma get_tile_off_grid (m : GameMap.t) (x y : Z) :
  GameMap.tile_size m ≠ 0 -> ¬ on_grid m x y ->
  GameMap.get_tile_at_position m x y = Some STEEL_WALL.
Proof.
  intros Hts Hoff. rewrite get_tile_unfold by done.
  by rewrite grid_test_off.
Qed.

Lemma get_tile_total (m : GameMap.t) (x y : Z) :
  well_formed m -> ∃ tile, GameMap.get_tile_at_position m x y = Some tile.
Proof.
  intros [Hts Hshape]. rewrite get_tile_unfold by done.
  destruct (grid_test m _ _) eqn:Hon; [|by eexists].
  unfold grid_test in Hon.
  repeat (apply andb_prop in Hon; destruct Hon as [Hon ?]).
  eapply py_getitem2_in_range; [done| |]; lia.
Qed.

(** C8.  On a well-formed map [get_tile_at_position], [is_passable] and
    [can_destroy_tile] return a value for every pair of pixel coordinates,
    negative ones and ones past the edge included; when the tile
    coordinates fall outside [0,width) x [0,height) the tile is the
    [STEEL_WALL] sentinel, the position is impassable and it cannot be
    destroyed. *)
Theorem tile_queries_total (m : GameMap.t) (x y : Z) :
  well_formed m ->
  (∃ tile, GameMap.get_tile_at_position m x y = Some tile) ∧
  (∃ b, GameMap.is_passable m x y = Some b) ∧
  (∃ b, GameMap.can_destroy_tile m x y = Some b) ∧
  (¬ on_grid m x y ->
     GameMap.get_tile_at_position m x y = Some STEEL_WALL ∧
     GameMap.is_passable m x y = Some false ∧
     GameMap.can_destroy_tile m x y = Some false ∧
     GameMap.destroy_tile m x y = Some (false, m)).
Proof.
  intros Hwf. destruct (get_tile_total m x y Hwf) as [tile Htile].
  unfold GameMap.is_passable, GameMap.can_destroy_tile.
  split; [by exists tile|]. rewrite Htile.
  split; [by eexists|]. split; [by eexists|].
  intros Hoff. destruct Hwf as [Hts _].
  rewrite get_tile_off_grid in Htile by done.
  injection Htile as <-.
  rewrite destroy_tile_unfold, grid_test_off by done. done.
Qed.

Lemma tile_queries_total_witness :
  GameMap.get_tile_at_position demo_map (-5) 1000 = Some STEEL_WALL ∧
  GameMap.is_passable demo_map (-5) 1000 = Some false ∧
  GameMap.can_destroy_tile demo_map (-5) 1000 = Some false ∧
  GameMap.destroy_tile demo_map (-5) 1000 = Some (false, demo_map).
Proof.
  assert (Hwf : well_formed demo_map) by solve_well_formed.
  destruct (tile_queries_total demo_map (-5) 1000 Hwf) as (_ & _ & _ & Hoff).
  apply Hoff. intros [[Hneg _] _]. revert Hneg.
  apply Z.lt_nge. reflexivity.
Defined.

(** ** Destroying tiles *)

Lemma with_map_data_well_formed (m : GameMap.t) (d : list (list Tile)) :
  GameMap.tile_size m ≠ 0 ->
  grid_shape (GameMap.height m) (GameMap.width m) d ->
  well_formed (GameMap.with_map_data m d).
Proof. intros Hts Hd. split; done. Qed.

Lemma grid_test_bounds (m : GameMap.t) (tx ty : Z) :
  grid_test m tx ty = true ->
  0 <= ty < GameMap.height m ∧ 0 <= tx < GameMap.width m.
Proof.
  unfold grid_test. intros Hon.
  repeat (apply andb_prop in Hon; destruct Hon as [Hon ?]). lia.
Qed.

Lemma destroy_tile_other (m : GameMap.t) (x y : Z) :
  well_formed m ->
  GameMap.get_tile_at_position m x y ≠ Some BRICK_WALL ->
  GameMap.destroy_tile m x y = Some (false, m).
Proof.
  intros [Hts Hshape].
  rewrite destroy_tile_unfold, get_tile_unfold by done.
  destruct (grid_test m _ _) eqn:Hon; [|done].
  destruct (grid_test_bounds _ _ _ Hon) as [Hy Hx].
  destruct (py_getitem2_in_range _ _ _ _ _ Hshape Hy Hx) as [cur Hcur].
  rewrite Hcur. intros Hne. simpl.
  rewrite bool_decide_eq_false_2; [done|congruence].
Qed.

Lemma destroy_tile_brick (m : GameMap.t) (x y : Z) :
  well_formed m ->
  GameMap.get_tile_at_position m x y = Some BRICK_WALL ->
  ∃ m', GameMap.destroy_tile m x y = Some (true, m') ∧
        well_formed m' ∧
        GameMap.get_tile_at_position m' x y = Some EMPTY ∧
        (∀ x' y',
           (x' / GameMap.tile_size m, y' / GameMap.tile_size m) ≠
           (x / GameMap.tile_size m, y / GameMap.tile_size m) ->
           GameMap.get_tile_at_position m' x' y' =
           GameMap.get_tile_at_position m x' y').
Proof.
  intros [Hts Hshape].
  rewrite destroy_tile_unfold, get_tile_unfold by done.
  destruct (grid_test m _ _) eqn:Hon; [|done].
  destruct (grid_test_bounds _ _ _ Hon) as [Hy Hx].
  intros Hcur. rewrite Hcur. simpl.
  destruct (py_setitem2_in_range _ _ _ _ _ EMPTY Hshape Hy Hx)
    as (d & Hset & Hd & Hget & Hframe).
  rewrite Hset. simpl. exists (GameMap.with_map_data m d).
  split; [done|]. split; [by apply with_map_data_well_formed|].
  assert (Hts' : GameMap.tile_size (GameMap.with_map_data m d) ≠ 0) by done.
  assert (Hsame : ∀ a b, grid_test (GameMap.with_map_data m d) a b
                         = grid_test m a b) by done.
  split.
  - rewrite get_tile_unfold by done. simpl. by rewrite Hsame, Hon.
  - intros x' y' Hne. rewrite !get_tile_unfold by done. simpl.
    rewrite Hsame.
    destruct (grid_test m (x' / GameMap.tile_size m)
                (y' / GameMap.tile_size m)) eqn:Hon'; [|done].
    destruct (grid_test_bounds _ _ _ Hon') as [Hy' Hx'].
    apply Hframe; [done..|]. congruence.
Qed.

(** C6.  On a well-formed map, [destroy_tile] at a position whose tile is
    not [BRICK_WALL] returns [False] and leaves the map as it is; at a
    position whose tile is [BRICK_WALL] it returns [True], that tile reads
    [EMPTY] afterwards, every position in another cell reads as before,
    and a second [destroy_tile] at the same position returns [False] and
    changes nothing. *)
Theorem destroy_tile_spec (m : GameMap.t) (x y : Z) :
  well_formed m ->
  (GameMap.get_tile_at_position m x y ≠ Some BRICK_WALL ->
     GameMap.destroy_tile m x y = Some (false, m)) ∧
  (GameMap.get_tile_at_position m x y = Some BRICK_WALL ->
     ∃ m', GameMap.destroy_tile m x y = Some (true, m') ∧
           well_formed m' ∧
           GameMap.get_tile_at_position m' x y = Some EMPTY ∧
           (∀ x' y',
              (x' / GameMap.tile_size m, y' / GameMap.tile_size m) ≠
              (x / GameMap.tile_size m, y / GameMap.tile_size m) ->
              GameMap.get_tile_at_position m' x' y' =
              GameMap.get_tile_at_position m x' y') ∧
           GameMap.destroy_tile m' x y = Some (false, m')).
Proof.
  intros Hwf. split.
  - by apply destroy_tile_other.
  - intros Hbrick.
    destruct (destroy_tile_brick m x y Hwf Hbrick)
      as (m' & Hrun & Hwf' & Hempty & Hframe).
    exists m'. repeat (split; [done|]).
    apply destroy_tile_other; [done|]. rewrite Hempty. discriminate.
Qed.

Lemma destroy_tile_spec_witness :
  GameMap.destroy_tile demo_map 10 10 = Some (false, demo_map) ∧
  ∃ m', GameMap.destroy_tile demo_map 90 50 = Some (true, m') ∧
        GameMap.get_tile_at_position m' 90 50 = Some EMPTY ∧
        GameMap.destroy_tile m' 90 50 = Some (false, m').
Proof.
  assert (Hwf : well_formed demo_map) by solve_well_formed.
  split.
  - apply (destroy_tile_spec demo_map 10 10 Hwf). vm_compute. congruence.
  - destruct (destroy_tile_spec demo_map 90 50 Hwf) as [_ Hbrick].
    destruct Hbrick as (m' & H1 & _ & H2 & _ & H3); [reflexivity|].
    exists m'. auto.
Defined.

(** ** Corner sampling *)

Lemma is_passable_total (m : GameMap.t) (x y : Z) :
  well_formed m -> ∃ b, GameMap.is_passable m x y = Some b.
Proof.
  intros Hwf. destruct (get_tile_total m x y Hwf) as [tile Htile].
  unfold GameMap.is_passable. rewrite Htile. by eexists.
Qed.




Lemma any_impassable_clear (m : GameMap.t) (cs : list (Z * Z)) :
  (∀ c, c ∈ cs -> GameMap.is_passable m c.1 c.2 = Some true) ->
  GameMap.any_impassable m cs = Some false.
Proof.
  induction cs as [|[cx cy] cs IH]; intros Hall; [done|].
  pose proof (Hall (cx, cy) (list_elem_of_here _ _)) as Hhere.
  simpl in Hhere. simpl. rewrite Hhere. simpl.
  apply IH. intros c Hin. apply Hall. by apply list_elem_of_further.
Qed.

(** ** Moving a tank *)

Lemma move_alive (cfg : Config) (s : Tank.t) (d : Direction) (m : GameMap.t) :
  Tank.alive s = true ->
  let new_x := Tank.x s + (DIRECTIONS cfg d).1 * Tank.speed s in
  let new_y := Tank.y s + (DIRECTIONS cfg d).2 * Tank.speed s in
  Tank.move cfg s d m =
  GameMap.any_impassable m
    (GameMap.corners
       (Rect.mk (new_x - Tank.size s / 2) (new_y - Tank.size s / 2)
                (Tank.size s) (Tank.size s))) ≫= fun c : bool =>
  if c then Some (false, Tank.with_direction s d)
  else Some (true, Tank.with_pos (Tank.with_direction s d) new_x new_y).
Proof.
  intros Halive. unfold Tank.move. rewrite Halive.
  destruct (DIRECTIONS cfg d) as [vx vy].
  unfold Tank.can_move, GameMap.check_collision_with_rect.
  cbn -[GameMap.any_impassable GameMap.corners Z.div Z.mul Z.add Z.sub].
  match goal with
  | |- context [GameMap.any_impassable m ?cs] =>
      by destruct (GameMap.any_impassable m cs) as [[|]|]
  end.
Qed.

(** C10.  [move] on a tank that is not alive returns [False] and returns
    the tank with every field as it was; the facing is not set to the
    requested direction. *)
Theorem move_dead_unchanged (cfg : Config) (s : Tank.t) (d : Direction)
    (m : GameMap.t) :
  Tank.alive s = false ->
  Tank.move cfg s d m = Some (false, s).
Proof. intros Hdead. unfold Tank.move. by rewrite Hdead. Qed.


Lemma move_dead_unchanged_witness :
  Tank.move demo_config demo_wreck LEFT demo_map = Some (false, demo_wreck) ∧
  Tank.direction demo_wreck = UP.
Proof.
  split; [|reflexivity].
  apply (move_dead_unchanged demo_config demo_wreck LEFT demo_map).
  reflexivity.
Defined.


(** ** Damage to the player *)

(** C2.  [take_damage] while the clock reads less than
    [invulnerable_time] returns the player unchanged (lives, position,
    facing and alive flag included).  Otherwise, with one life left the
    player ends with [lives = 0] and [alive = False]; with two lives left
    it ends with [lives = 1], at the respawn anchor, facing [UP], alive,
    and with [invulnerable_time] equal to the clock reading taken during
    the call (by [respawn]) plus [invulnerable_duration]. *)
Theorem take_damage_spec (p : PlayerTank.t) (w : World) :
  (now w < PlayerTank.invulnerable_time p ->
     PlayerTank.take_damage p w = Some (p, tick w)) ∧
  (PlayerTank.invulnerable_time p <= now w -> PlayerTank.lives p = 1 ->
     ∃ p', PlayerTank.take_damage p w = Some (p', tick w) ∧
           Tank.alive (PlayerTank.base p') = false ∧
           PlayerTank.lives p' = 0) ∧
  (PlayerTank.invulnerable_time p <= now w -> PlayerTank.lives p = 2 ->
     ∃ p', PlayerTank.take_damage p w = Some (p', tick (tick w)) ∧
           PlayerTank.lives p' = 1 ∧
           Tank.x (PlayerTank.base p') = PlayerTank.respawn_x p ∧
           Tank.y (PlayerTank.base p') = PlayerTank.respawn_y p ∧
           Tank.direction (PlayerTank.base p') = UP ∧
           Tank.alive (PlayerTank.base p') = true ∧
           PlayerTank.invulnerable_time p' =
             now (tick w) + PlayerTank.invulnerable_duration p).
Proof.
  unfold PlayerTank.take_damage, bind, get_ticks.
  split; [|split].
  - intros Hinv. apply Z.ltb_lt in Hinv. by rewrite Hinv.
  - intros Hinv Hlives. apply Z.ltb_ge in Hinv. rewrite Hinv.
    simpl. rewrite Hlives. simpl. by eexists.
  - intros Hinv Hlives. apply Z.ltb_ge in Hinv. rewrite Hinv.
    simpl. rewrite Hlives. simpl. by eexists.
Qed.

Lemma take_damage_spec_witness :
  PlayerTank.take_damage (demo_player 2 5000) (world_of [4000] [])
    = Some (demo_player 2 5000, tick (world_of [4000] [])) ∧
  (∃ p', PlayerTank.take_damage (demo_player 1 5000) (world_of [6000] [])
           = Some (p', tick (world_of [6000] [])) ∧
         Tank.alive (PlayerTank.base p') = false ∧ PlayerTank.lives p' = 0) ∧
  (∃ p', PlayerTank.take_damage (demo_player 2 5000) (world_of [6000; 6001] [])
           = Some (p', tick (tick (world_of [6000; 6001] []))) ∧
         PlayerTank.lives p' = 1 ∧
         Tank.x (PlayerTank.base p') = 80 ∧
         Tank.y (PlayerTank.base p') = 520 ∧
         Tank.direction (PlayerTank.base p') = UP ∧
         Tank.alive (PlayerTank.base p') = true ∧
         PlayerTank.invulnerable_time p' = 8001).
Proof.
  split; [|split].
  - apply (take_damage_spec (demo_player 2 5000) (world_of [4000] [])).
    reflexivity.
  - apply (take_damage_spec (demo_player 1 5000) (world_of [6000] []));
      [discriminate | reflexivity].
  - apply (take_damage_spec (demo_player 2 5000) (world_of [6000; 6001] []));
      [discriminate | reflexivity].
Defined.

(** ** Firing and the cooldown *)

Lemma shoot_refused (cfg : Config) (s : Tank.t) (o : string) (w : World) :
  Tank.alive s = false ∨ now w - Tank.last_shot_time s < Tank.shot_cooldown s ->
  Tank.shoot cfg s o w = Some ((None, s), tick w).
Proof.
  intros Hno. unfold Tank.shoot, Tank.can_shoot, bind, get_ticks, ret.
  destruct Hno as [-> | Hcool]; [done|].
  apply Z.leb_gt in Hcool. rewrite Hcool.
  by rewrite andb_false_r.
Qed.

Lemma shoot_granted (cfg : Config) (s : Tank.t) (o : string) (w : World) :
  Tank.alive s = true ->
  Tank.shot_cooldown s <= now w - Tank.last_shot_time s ->
  Tank.shoot cfg s o w =
  Some ((Some (Bullet.init cfg
                 (Tank.x s + (DIRECTIONS cfg (Tank.direction s)).1
                             * (Tank.size s / 2 + 5))
                 (Tank.y s + (DIRECTIONS cfg (Tank.direction s)).2
                             * (Tank.size s / 2 + 5))
                 (Tank.direction s) o),
         Tank.with_last_shot_time s (now (tick w))),
        tick (tick w)).
Proof.
  intros Halive Hcool.
  unfold Tank.shoot, Tank.can_shoot, bind, get_ticks, ret.
  apply Z.leb_le in Hcool. rewrite Halive, Hcool.
  unfold Tank.get_front_position.
  cbn -[Z.div Z.mul Z.add Z.sub now tick].
  by destruct (DIRECTIONS cfg (Tank.direction s)).
Qed.

(** C5, as amended.  [shoot] returns no bullet exactly when the tank is not
    alive or the clock is less than [shot_cooldown] past [last_shot_time].
    When the tank is alive and the first call is itself off cooldown, the
    first call succeeds, stamps [last_shot_time] and returns a bullet at
    the tank's centre moved along the facing by half the size plus 5; a
    second call less than [shot_cooldown] after that stamp returns no bullet
    and leaves the tank (so [last_shot_time]) unchanged, and one at least
    [shot_cooldown] after it succeeds in the same way. *)
Theorem shoot_cooldown (cfg : Config) (s : Tank.t) (o1 o2 : string)
    (w1 w2 : World) :
  (∃ r, Tank.shoot cfg s o1 w1 = Some r ∧
        (r.1.1 = None <->
         Tank.alive s = false ∨
         now w1 - Tank.last_shot_time s < Tank.shot_cooldown s)) ∧
  (Tank.alive s = true ->
   Tank.shot_cooldown s <= now w1 - Tank.last_shot_time s ->
   ∃ b1 s1,
     Tank.shoot cfg s o1 w1 = Some ((Some b1, s1), tick (tick w1)) ∧
     Tank.last_shot_time s1 = now (tick w1) ∧
     Bullet.x b1 = Tank.x s + (DIRECTIONS cfg (Tank.direction s)).1
                              * (Tank.size s / 2 + 5) ∧
     Bullet.y b1 = Tank.y s + (DIRECTIONS cfg (Tank.direction s)).2
                              * (Tank.size s / 2 + 5) ∧
     Bullet.direction b1 = Tank.direction s ∧
     Bullet.owner b1 = o1 ∧
     (now w2 - now (tick w1) < Tank.shot_cooldown s ->
        Tank.shoot cfg s1 o2 w2 = Some ((None, s1), tick w2)) ∧
     (Tank.shot_cooldown s <= now w2 - now (tick w1) ->
        ∃ b2 s2,
          Tank.shoot cfg s1 o2 w2 = Some ((Some b2, s2), tick (tick w2)) ∧
          Tank.last_shot_time s2 = now (tick w2) ∧
          Bullet.x b2 = Tank.x s + (DIRECTIONS cfg (Tank.direction s)).1
                                   * (Tank.size s / 2 + 5) ∧
          Bullet.y b2 = Tank.y s + (DIRECTIONS cfg (Tank.direction s)).2
                                   * (Tank.size s / 2 + 5) ∧
          Bullet.direction b2 = Tank.direction s ∧
          Bullet.owner b2 = o2)).
Proof.
  split.
  - destruct (Tank.alive s) eqn:Halive.
    + destruct (Z.lt_ge_cases (now w1 - Tank.last_shot_time s)
                  (Tank.shot_cooldown s)) as [Hcool | Hcool].
      * eexists. split; [apply shoot_refused; by right|]. simpl. tauto.
      * eexists. split; [by apply shoot_granted|]. simpl.
        split; [done|]. intros [? | ?]; [done | lia].
    + eexists. split; [apply shoot_refused; left; done|]. simpl. tauto.
  - intros Halive Hcool. do 2 eexists.
    split; [by apply shoot_granted|].
    split; [done|].
    unfold Bullet.init.
    destruct (DIRECTIONS cfg (Tank.direction s)) as [vx vy] eqn:Hdir.
    simpl. do 4 (split; [done|]).
    split.
    + intros Hsoon. apply shoot_refused. right. exact Hsoon.
    + intros Hlate. do 2 eexists.
      split; [apply shoot_granted; [exact Halive | exact Hlate]|]. simpl.
      rewrite Hdir. unfold Bullet.init. rewrite Hdir. simpl.
      repeat split; reflexivity.
Qed.

Lemma shoot_cooldown_witness :
  (∃ b1 s1,
     Tank.shoot demo_config (Tank.with_last_shot_time demo_tank 1000) "player"
       (world_of [1600; 1601] []) = Some ((Some b1, s1), tick (tick (world_of [1600; 1601] []))) ∧
     Tank.last_shot_time s1 = 1601 ∧
     Bullet.x b1 = 60 ∧ Bullet.y b1 = 40 ∧
     Tank.shoot demo_config s1 "player" (world_of [2000] [])
       = Some ((None, s1), tick (world_of [2000] [])) ∧
     (∃ b2 s2,
        Tank.shoot demo_config s1 "player" (world_of [2101; 2102] [])
          = Some ((Some b2, s2), tick (tick (world_of [2101; 2102] []))) ∧
        Tank.last_shot_time s2 = 2102 ∧ Bullet.x b2 = 60 ∧ Bullet.y b2 = 40)).
Proof.
  destruct (shoot_cooldown demo_config (Tank.with_last_shot_time demo_tank 1000)
              "player" "player" (world_of [1600; 1601] []) (world_of [2000] []))
    as [_ Hfirst].
  destruct Hfirst as (b1 & s1 & H1 & Hstamp & Hx & Hy & _ & _ & Hsoon & _);
    [reflexivity | discriminate |].
  destruct (shoot_cooldown demo_config (Tank.with_last_shot_time demo_tank 1000)
              "player" "player" (world_of [1600; 1601] [])
              (world_of [2101; 2102] []))
    as [_ Hagain].
  destruct Hagain as (b1' & s1' & H1' & _ & _ & _ & _ & _ & _ & Hlate);
    [reflexivity | discriminate |].
  rewrite H1 in H1'. injection H1' as <- <-.
  destruct Hlate as (b2 & s2 & H2 & Hstamp2 & Hx2 & Hy2 & _); [discriminate|].
  exists b1, s1. repeat split; try done.
  - by apply Hsoon.
  - exists b2, s2. done.
Defined.

(** The sentence of C5 that fails when read without the proviso: a new tank
    ([last_shot_time = 0], cooldown 500) is asked to fire at clock 100 and
    again at clock 700.  The tank is alive and the calls are 600 ms apart,
    but the first returns no bullet (only the second succeeds). *)
Lemma shoot_spaced_calls_first_refused :
  Tank.alive demo_tank = true ∧
  Tank.shot_cooldown demo_tank <=
    now (world_of [700; 700] []) - now (world_of [100] []) ∧
  Tank.shoot demo_config demo_tank "player" (world_of [100] [])
    = Some ((None, demo_tank), tick (world_of [100] [])) ∧
  (∃ b2 s2 w2', Tank.shoot demo_config demo_tank "player"
                  (world_of [700; 700] []) = Some ((Some b2, s2), w2')) ∧
  ¬ (∃ b1 s1 w1', Tank.shoot demo_config demo_tank "player"
                    (world_of [100] []) = Some ((Some b1, s1), w1')).
Proof.
  split; [reflexivity|]. split; [discriminate|]. split; [reflexivity|].
  split.
  - do 3 eexists. apply shoot_granted; [reflexivity | discriminate].
  - intros (b1 & s1 & w1' & H). vm_compute in H. discriminate.
Qed.

(** ** Flight of a bullet *)

Lemma update_inactive (cfg : Config) (b : Bullet.t) (n : nat) :
  Bullet.active b = false -> Nat.iter n (Bullet.update cfg) b = b.
Proof.
  intros Hoff. induction n as [|n IH]; [done|].
  simpl. rewrite IH. unfold Bullet.update. by rewrite Hoff.
Qed.

Lemma update_active (cfg : Config) (b : Bullet.t) :
  Bullet.active b = true ->
  Bullet.x (Bullet.update cfg b) = Bullet.x b + Bullet.dx b ∧
  Bullet.y (Bullet.update cfg b) = Bullet.y b + Bullet.dy b ∧
  Bullet.dx (Bullet.update cfg b) = Bullet.dx b ∧
  Bullet.dy (Bullet.update cfg b) = Bullet.dy b ∧
  (in_bounds cfg (Bullet.x b + Bullet.dx b) (Bullet.y b + Bullet.dy b) ->
     Bullet.active (Bullet.update cfg b) = true) ∧
  (¬ in_bounds cfg (Bullet.x b + Bullet.dx b) (Bullet.y b + Bullet.dy b) ->
     Bullet.active (Bullet.update cfg b) = false).
Proof.
  intros Hon. unfold Bullet.update, in_bounds. rewrite Hon. simpl.
  destruct (Z.ltb_spec (Bullet.x b + Bullet.dx b) 0);
    destruct (Z.ltb_spec (SCREEN_WIDTH cfg) (Bullet.x b + Bullet.dx b));
    destruct (Z.ltb_spec (Bullet.y b + Bullet.dy b) 0);
    destruct (Z.ltb_spec (SCREEN_HEIGHT cfg) (Bullet.y b + Bullet.dy b));
    simpl; repeat split; try done; intros; exfalso; lia.
Qed.

(** While every position reached so far is in bounds the bullet is active
    and has moved by [n] times its velocity. *)
Lemma flight_in_bounds (cfg : Config) (b : Bullet.t) (n : nat) :
  Bullet.active b = true ->
  (∀ k : nat, (1 <= k <= n)%nat ->
     in_bounds cfg (Bullet.x b + Z.of_nat k * Bullet.dx b)
                   (Bullet.y b + Z.of_nat k * Bullet.dy b)) ->
  let b' := Nat.iter n (Bullet.update cfg) b in
  Bullet.x b' = Bullet.x b + Z.of_nat n * Bullet.dx b ∧
  Bullet.y b' = Bullet.y b + Z.of_nat n * Bullet.dy b ∧
  Bullet.dx b' = Bullet.dx b ∧ Bullet.dy b' = Bullet.dy b ∧
  Bullet.active b' = true.
Proof.
  intros Hon. induction n as [|n IH]; intros Hin; simpl.
  - repeat split; (lia || done).
  - destruct IH as (Hx & Hy & Hdx & Hdy & Hact).
    { intros k Hk. apply Hin. lia. }
    destruct (update_active cfg _ Hact) as (Ux & Uy & Udx & Udy & Uin & _).
    rewrite Ux, Uy, Udx, Udy, Hx, Hy, Hdx, Hdy in *.
    repeat split; try lia.
    apply Uin. specialize (Hin (S n)).
    replace (Bullet.x b + Z.of_nat n * Bullet.dx b + Bullet.dx b)
      with (Bullet.x b + Z.of_nat (S n) * Bullet.dx b) by lia.
    replace (Bullet.y b + Z.of_nat n * Bullet.dy b + Bullet.dy b)
      with (Bullet.y b + Z.of_nat (S n) * Bullet.dy b) by lia.
    apply Hin. lia.
Qed.

(** Once step [k0] is the first to leave the screen, the bullet stays at
    that position, inactive, whatever the number of later updates. *)
Lemma flight_after_exit (cfg : Config) (b : Bullet.t) (k0 n : nat) :
  Bullet.active b = true ->
  (1 <= k0 <= n)%nat ->
  (∀ k : nat, (1 <= k < k0)%nat ->
     in_bounds cfg (Bullet.x b + Z.of_nat k * Bullet.dx b)
                   (Bullet.y b + Z.of_nat k * Bullet.dy b)) ->
  ¬ in_bounds cfg (Bullet.x b + Z.of_nat k0 * Bullet.dx b)
                  (Bullet.y b + Z.of_nat k0 * Bullet.dy b) ->
  let b' := Nat.iter n (Bullet.update cfg) b in
  Bullet.x b' = Bullet.x b + Z.of_nat k0 * Bullet.dx b ∧
  Bullet.y b' = Bullet.y b + Z.of_nat k0 * Bullet.dy b ∧
  Bullet.active b' = false.
Proof.
  intros Hon Hk0 Hbefore Hexit.
  destruct k0 as [|j]; [lia|].
  replace n with ((n - S j) + S j)%nat by lia.
  rewrite Nat.iter_add. simpl.
  destruct (flight_in_bounds cfg b j Hon) as (Hx & Hy & Hdx & Hdy & Hact).
  { intros k Hk. apply Hbefore. lia. }
  destruct (update_active cfg _ Hact) as (Ux & Uy & _ & _ & _ & Uout).
  rewrite Hx, Hy, Hdx, Hdy in *.
  assert (Hoff : Bullet.active
                   (Bullet.update cfg (Nat.iter j (Bullet.update cfg) b))
                 = false).
  { apply Uout.
    replace (Bullet.x b + Z.of_nat j * Bullet.dx b + Bullet.dx b)
      with (Bullet.x b + Z.of_nat (S j) * Bullet.dx b) by lia.
    replace (Bullet.y b + Z.of_nat j * Bullet.dy b + Bullet.dy b)
      with (Bullet.y b + Z.of_nat (S j) * Bullet.dy b) by lia.
    done. }
  rewrite update_inactive by done.
  repeat split; (lia || done).
Qed.

(** C4.  A bullet created at [(x0, y0)] heading [d]: as long as every
    position up to the [n]-th update is inside
    [0, SCREEN_WIDTH] x [0, SCREEN_HEIGHT], after [n] updates it is active at
    [(x0, y0) + n * BULLET_SPEED * DIRECTIONS d]; once an update [k0] has
    taken it outside, it is inactive and stays at the position of update
    [k0] for every later number of updates. *)
Theorem bullet_flight (cfg : Config) (x0 y0 : Z) (d : Direction) (o : string)
    (n : nat) :
  let b := Nat.iter n (Bullet.update cfg) (Bullet.init cfg x0 y0 d o) in
  let px (k : nat) := x0 + Z.of_nat k * (BULLET_SPEED cfg * (DIRECTIONS cfg d).1) in
  let py (k : nat) := y0 + Z.of_nat k * (BULLET_SPEED cfg * (DIRECTIONS cfg d).2) in
  ((∀ k : nat, (1 <= k <= n)%nat -> in_bounds cfg (px k) (py k)) ->
     Bullet.x b = px n ∧ Bullet.y b = py n ∧ Bullet.active b = true) ∧
  (∀ k0 : nat,
     (1 <= k0 <= n)%nat ->
     (∀ k : nat, (1 <= k < k0)%nat -> in_bounds cfg (px k) (py k)) ->
     ¬ in_bounds cfg (px k0) (py k0) ->
     Bullet.x b = px k0 ∧ Bullet.y b = py k0 ∧ Bullet.active b = false ∧
     Bullet.update cfg b = b).
Proof.
  intros b px py.
  assert (Hinit : Bullet.active (Bullet.init cfg x0 y0 d o) = true ∧
                  Bullet.x (Bullet.init cfg x0 y0 d o) = x0 ∧
                  Bullet.y (Bullet.init cfg x0 y0 d o) = y0 ∧
                  Bullet.dx (Bullet.init cfg x0 y0 d o)
                    = BULLET_SPEED cfg * (DIRECTIONS cfg d).1 ∧
                  Bullet.dy (Bullet.init cfg x0 y0 d o)
                    = BULLET_SPEED cfg * (DIRECTIONS cfg d).2).
  { unfold Bullet.init. destruct (DIRECTIONS cfg d). simpl.
    repeat split; lia. }
  destruct Hinit as (Hact & Hx & Hy & Hdx & Hdy).
  split.
  - intros Hin.
    destruct (flight_in_bounds cfg _ n Hact) as (Fx & Fy & _ & _ & Fact).
    { intros k Hk. rewrite Hx, Hy, Hdx, Hdy. by apply Hin. }
    rewrite Hx, Hdx in Fx. rewrite Hy, Hdy in Fy. done.
  - intros k0 Hk0 Hbefore Hexit.
    destruct (flight_after_exit cfg _ k0 n Hact Hk0) as (Fx & Fy & Fact).
    { intros k Hk. rewrite Hx, Hy, Hdx, Hdy. by apply Hbefore. }
    { rewrite Hx, Hy, Hdx, Hdy. done. }
    rewrite Hx, Hdx in Fx. rewrite Hy, Hdy in Fy.
    repeat split; try done.
    apply (update_inactive cfg b 1 Fact).
Qed.

Lemma bullet_flight_witness :
  (let b := Nat.iter 2 (Bullet.update demo_config)
              (Bullet.init demo_config 400 10 UP "player") in
   Bullet.x b = 400 ∧ Bullet.y b = 0 ∧ Bullet.active b = true) ∧
  (let b := Nat.iter 7 (Bullet.update demo_config)
              (Bullet.init demo_config 400 10 UP "player") in
   Bullet.x b = 400 ∧ Bullet.y b = -5 ∧ Bullet.active b = false ∧
   Bullet.update demo_config b = b).
Proof.
  split.
  - destruct (bullet_flight demo_config 400 10 UP "player" 2) as [Hin _].
    apply Hin. intros k Hk. unfold in_bounds. simpl. lia.
  - destruct (bullet_flight demo_config 400 10 UP "player" 7) as [_ Hout].
    apply (Hout 3%nat).
    + lia.
    + intros k Hk. unfold in_bounds. simpl. lia.
    + unfold in_bounds. simpl. lia.
Defined.

(** ** Loops *)

Lemma bind_run {A B} (c : M A) (k : A -> M B) (w w' : World) (a : A) :
  c w = Some (a, w') -> bind c k w = k a w'.
Proof. intros Hc. unfold bind. by rewrite Hc. Qed.

Lemma for_loop_invariant {St} (P : Z -> St -> Prop) (body : Z -> St -> M St)
    (n : nat) :
  ∀ (lo : Z) (s : St) (w : World),
    (∀ i s w, lo <= i < lo + Z.of_nat n -> P i s ->
              ∃ s' w', body i s w = Some (s', w') ∧ P (i + 1) s') ->
    P lo s ->
    ∃ s' w', for_loop n lo body s w = Some (s', w') ∧ P (lo + Z.of_nat n) s'.
Proof.
  induction n as [|n IH]; intros lo s w Hbody Hs.
  - exists s, w. split; [done|]. by rewrite Z.add_0_r.
  - destruct (Hbody lo s w) as (s1 & w1 & Hstep & Hs1); [lia|done|].
    destruct (IH (lo + 1) s1 w1) as (s2 & w2 & Hrest & Hs2); [|done|].
    { intros i s' w' Hi. apply Hbody. lia. }
    exists s2, w2. split.
    + simpl. unfold bind. by rewrite Hstep.
    + by replace (lo + Z.of_nat (S n)) with (lo + 1 + Z.of_nat n) by lia.
Qed.

Lemma for_range_invariant {St} (P : Z -> St -> Prop) (body : Z -> St -> M St)
    (lo hi : Z) (s : St) (w : World) :
  lo <= hi ->
  (∀ i s w, lo <= i < hi -> P i s ->
            ∃ s' w', body i s w = Some (s', w') ∧ P (i + 1) s') ->
  P lo s ->
  ∃ s' w', for_range lo hi body s w = Some (s', w') ∧ P hi s'.
Proof.
  intros Hle Hbody Hs. unfold for_range.
  destruct (for_loop_invariant P body (Z.to_nat (hi - lo)) lo s w)
    as (s' & w' & Hrun & Hs'); [|done|].
  { intros i s1 w1 Hi. apply Hbody. lia. }
  exists s', w'. split; [done|].
  by replace hi with (lo + Z.of_nat (Z.to_nat (hi - lo))) by lia.
Qed.

Lemma for_range_preserve {St} (Q : St -> Prop) (body : Z -> St -> M St)
    (lo hi : Z) (s : St) (w : World) :
  (∀ i s w, lo <= i < hi -> Q s ->
            ∃ s' w', body i s w = Some (s', w') ∧ Q s') ->
  Q s ->
  ∃ s' w', for_range lo hi body s w = Some (s', w') ∧ Q s'.
Proof.
  intros Hbody Hs. unfold for_range.
  destruct (for_loop_invariant (fun _ => Q) body (Z.to_nat (hi - lo)) lo s w)
    as (s' & w' & Hrun & Hs'); [|done|].
  { intros i s1 w1 Hi. apply Hbody. lia. }
  by exists s', w'.
Qed.

(** ** Writing cells under an invariant *)

Lemma cells_ok_impl (h w : Z) (R R' : Z -> Z -> Tile -> Prop)
    (d : list (list Tile)) :
  (∀ y x t, inside h w y x -> R y x t -> R' y x t) ->
  cells_ok h w R d -> cells_ok h w R' d.
Proof.
  intros Himpl [Hshape Hcells]. split; [done|].
  intros y x t Hin Hget. apply Himpl; [done|]. by apply Hcells.
Qed.

(** [d[y0][x0] = v] inside the grid turns the invariant [R] into [R'] when
    [v] is acceptable for [R'] at that cell and [R] implies [R'] elsewhere. *)
Lemma write_cell (h w : Z) (R R' : Z -> Z -> Tile -> Prop)
    (d : list (list Tile)) (y0 x0 : Z) (v : Tile) (wd : World) :
  cells_ok h w R d ->
  inside h w y0 x0 ->
  R' y0 x0 v ->
  (∀ y x t, inside h w y x -> y ≠ y0 ∨ x ≠ x0 -> R y x t -> R' y x t) ->
  ∃ d' wd', lift (py_setitem2 d y0 x0 v) wd = Some (d', wd') ∧
            cells_ok h w R' d'.
Proof.
  intros [Hshape Hcells] [Hy Hx] Hv Hothers.
  destruct (py_setitem2_in_range h w d y0 x0 v Hshape Hy Hx)
    as (d' & Hset & Hshape' & Hget & Hframe).
  exists d', wd. split; [unfold lift; by rewrite Hset|].
  split; [done|]. intros y x t Hin Hcell.
  destruct (decide ((y, x) = (y0, x0))) as [[= -> ->]|Hne].
  - rewrite Hget in Hcell. by injection Hcell as <-.
  - destruct Hin as [Hy' Hx'].
    rewrite Hframe in Hcell by done.
    apply Hothers; [done| |by apply Hcells].
    destruct (decide (y = y0)) as [->|]; [|by left].
    right. intros ->. by apply Hne.
Qed.

Lemma keep_cells (h w : Z) (R : Z -> Z -> Tile -> Prop)
    (d : list (list Tile)) (wd : World) :
  cells_ok h w R d ->
  ∃ d' wd', ret d wd = Some (d', wd') ∧ cells_ok h w R d'.
Proof. intros Hok. by exists d, wd. Qed.

(** ** The phases of [generate_map] *)

Lemma clear_phase (h w : Z) (d : list (list Tile)) (wd : World) :
  0 <= h -> 0 <= w -> grid_shape h w d ->
  ∃ d' wd',
    for_range 0 h (fun y =>
      for_range 0 w (fun x d => lift (py_setitem2 d y x EMPTY))) d wd
    = Some (d', wd') ∧
    cells_ok h w (fun _ _ t => t = EMPTY) d'.
Proof.
  intros Hh Hw Hshape.
  destruct (for_range_invariant
              (fun y => cells_ok h w (fun r _ t => r < y -> t = EMPTY))
              (fun y => for_range 0 w (fun x d => lift (py_setitem2 d y x EMPTY)))
              0 h d wd Hh) as (d' & wd' & Hrun & Hok).
  - intros y d0 w0 Hy Hrow.
    destruct (for_range_invariant
                (fun x => cells_ok h w
                   (fun r c t => r < y ∨ (r = y ∧ c < x) -> t = EMPTY))
                (fun x d => lift (py_setitem2 d y x EMPTY))
                0 w d0 w0 Hw) as (d1 & w1 & Hrun1 & Hok1).
    + intros x d1 w1 Hx Hcell.
      eapply write_cell; [exact Hcell| | |]; cell_arith.
    + eapply cells_ok_impl; [|exact Hrow]. cell_arith.
    + exists d1, w1. split; [done|].
      eapply cells_ok_impl; [|exact Hok1]. cell_arith.
  - split; [done|]. intros y x t [Hy _] _ Hneg. lia.
  - exists d', wd'. split; [done|].
    eapply cells_ok_impl; [|exact Hok]. cell_arith.
Qed.

Lemma border_rows_phase (h w : Z) (d : list (list Tile)) (wd : World) :
  0 < h -> 0 <= w ->
  cells_ok h w (fun _ _ t => t = EMPTY) d ->
  ∃ d' wd',
    for_range 0 w (fun x d =>
      let* d' := lift (py_setitem2 d 0 x STEEL_WALL) in
      lift (py_setitem2 d' (h - 1) x STEEL_WALL))%W d wd
    = Some (d', wd') ∧
    cells_ok h w (fun r c t => (¬ border h w r c -> t = EMPTY) ∧
                               (r = 0 ∨ r = h - 1 -> t = STEEL_WALL)) d'.
Proof.
  intros Hh Hw Hclear.
  destruct (for_range_invariant
              (fun x => cells_ok h w (fun r c t =>
                 (¬ border h w r c -> t = EMPTY) ∧
                 (r = 0 ∨ r = h - 1 -> c < x -> t = STEEL_WALL)))
              (fun x d =>
                 let* d' := lift (py_setitem2 d 0 x STEEL_WALL) in
                 lift (py_setitem2 d' (h - 1) x STEEL_WALL))%W
              0 w d wd Hw) as (d' & wd' & Hrun & Hok).
  - intros x d0 w0 Hx Hcell.
    destruct (write_cell h w _
                (fun r c t =>
                   (¬ border h w r c -> t = EMPTY) ∧
                   (r = 0 ∨ r = h - 1 -> c < x -> t = STEEL_WALL) ∧
                   (r = 0 -> c = x -> t = STEEL_WALL))
                d0 0 x STEEL_WALL w0 Hcell) as (d1 & w1 & Hset1 & Hok1);
      [cell_arith..|].
    unfold bind. rewrite Hset1.
    eapply write_cell; [exact Hok1| | |]; cell_arith.
  - eapply cells_ok_impl; [|exact Hclear]. cell_arith.
  - exists d', wd'. split; [done|].
    eapply cells_ok_impl; [|exact Hok]. cell_arith.
Qed.

Lemma border_columns_phase (h w : Z) (d : list (list Tile)) (wd : World) :
  0 <= h -> 0 < w ->
  cells_ok h w (fun r c t => (¬ border h w r c -> t = EMPTY) ∧
                             (r = 0 ∨ r = h - 1 -> t = STEEL_WALL)) d ->
  ∃ d' wd',
    for_range 0 h (fun y d =>
      let* d' := lift (py_setitem2 d y 0 STEEL_WALL) in
      lift (py_setitem2 d' y (w - 1) STEEL_WALL))%W d wd
    = Some (d', wd') ∧
    cells_ok h w (fun r c t => (¬ border h w r c -> t = EMPTY) ∧
                               (border h w r c -> t = STEEL_WALL)) d'.
Proof.
  intros Hh Hw Hrows.
  destruct (for_range_invariant
              (fun y => cells_ok h w (fun r c t =>
                 (¬ border h w r c -> t = EMPTY) ∧
                 (r = 0 ∨ r = h - 1 -> t = STEEL_WALL) ∧
                 (c = 0 ∨ c = w - 1 -> r < y -> t = STEEL_WALL)))
              (fun y d =>
                 let* d' := lift (py_setitem2 d y 0 STEEL_WALL) in
                 lift (py_setitem2 d' y (w - 1) STEEL_WALL))%W
              0 h d wd Hh) as (d' & wd' & Hrun & Hok).
  - intros y d0 w0 Hy Hcell.
    destruct (write_cell h w _
                (fun r c t =>
                   (¬ border h w r c -> t = EMPTY) ∧
                   (r = 0 ∨ r = h - 1 -> t = STEEL_WALL) ∧
                   (c = 0 ∨ c = w - 1 -> r < y -> t = STEEL_WALL) ∧
                   (c = 0 -> r = y -> t = STEEL_WALL))
                d0 y 0 STEEL_WALL w0 Hcell) as (d1 & w1 & Hset1 & Hok1);
      [cell_arith..|].
    unfold bind. rewrite Hset1.
    eapply write_cell; [exact Hok1| | |]; cell_arith.
  - eapply cells_ok_impl; [|exact Hrows]. cell_arith.
  - exists d', wd'. split; [done|].
    eapply cells_ok_impl; [|exact Hok]. cell_arith.
Qed.








(** The model runs: on [demo_world] the generated arena has the centre of
    the cross at row 7, column 10, a steel corner, an open cell at the
    player's start, and a brick from the first draw at row 2, column 2. *)
Example generate_map_sample :
  (GameMap.generate_map (GameMap.blank demo_config) demo_world ≫= fun r =>
   Some (py_getitem2 (GameMap.map_data r.1) 7 10,
         py_getitem2 (GameMap.map_data r.1) 0 0,
         py_getitem2 (GameMap.map_data r.1) 13 2,
         py_getitem2 (GameMap.map_data r.1) 2 2))
  = Some (Some BRICK_WALL, Some STEEL_WALL, Some EMPTY, Some BRICK_WALL).
Proof. vm_compute. reflexivity. Qed.

(** The lower bound 9 on the size of the arena is needed: in an 8x8 arena
    the left arm of the cross reaches row 4, column 2, a cell of the player
    zone that is not on the border. *)
Example generate_map_small_arena :
  (GameMap.generate_map
     (GameMap.mk 8 8 40 (replicate 8 (replicate 8 EMPTY))) demo_world
   ≫= fun r => py_getitem2 (GameMap.map_data r.1) 4 2)
  = Some BRICK_WALL.
Proof. vm_compute. reflexivity. Qed.

(** ** Spawning an enemy *)

Lemma random_choice_some {A} (l : list A) (w : World) :
  l ≠ [] -> ∃ a, a ∈ l ∧ random_choice l w = Some (a, draw w).
Proof.
  intros Hne. unfold random_choice.
  assert (Hlen : 0 < Z.of_nat (length l)) by (destruct l; [done | simpl; lia]).
  pose proof (Z.mod_pos_bound (entropy w (entropy_used w)) _ Hlen) as Hk.
  destruct (lookup_lt_is_Some_2 l
              (Z.to_nat (entropy w (entropy_used w) mod Z.of_nat (length l))))
    as [a Ha]; [lia|].
  exists a. rewrite Ha. split; [|done].
  apply list_elem_of_lookup. eauto.
Qed.

Lemma spawn_blocked_true (r : Rect.t) (es : list EnemyTank.t) :
  Game.spawn_blocked r es = true <->
  ∃ e, e ∈ es ∧ Tank.alive (EnemyTank.base e) = true ∧
       Rect.colliderect r (Tank.get_rect (EnemyTank.base e)) = true.
Proof.
  induction es as [|e0 es IH]; simpl.
  - split; [done|]. intros (e & Hin & _). by apply elem_of_nil in Hin.
  - destruct (Tank.alive (EnemyTank.base e0) &&
              Rect.colliderect r (Tank.get_rect (EnemyTank.base e0)))
      eqn:Hhere.
    + split; [|done]. intros _. exists e0.
      apply andb_prop in Hhere as [? ?]. split; [apply list_elem_of_here|done].
    + rewrite IH. split.
      * intros (e & Hin & Halive & Hhit). exists e.
        split; [by apply list_elem_of_further|done].
      * intros (e & Hin & Halive & Hhit).
        apply elem_of_cons in Hin as [-> | Hin].
        -- rewrite Halive, Hhit in Hhere. done.
        -- exists e. done.
Qed.

(** C9, as amended.  With the three anchors of [Game.__init__], a spawn
    attempt picks one of them.  It is rejected (returns [False], game
    unchanged) when 5 or more enemies are present, when the player is alive
    and the new square at the anchor meets the player's square, or when it
    meets the square of an enemy that is alive.  Otherwise exactly one new
    enemy, alive and placed at the anchor, is appended and the attempt
    returns [True]. *)
Theorem spawn_enemy_spec (cfg : Config) (g : Game.t) (w : World) :
  Game.enemy_spawn_positions g = Game.spawn_positions cfg ->
  ∃ x y,
    (x, y) ∈ Game.spawn_positions cfg ∧
    random_choice (Game.enemy_spawn_positions g) w = Some ((x, y), draw w) ∧
    let spawn_rect :=
      Rect.mk (x - TANK_SIZE cfg / 2) (y - TANK_SIZE cfg / 2)
              (TANK_SIZE cfg) (TANK_SIZE cfg) in
    let crowded := 5 <= Z.of_nat (length (Game.enemy_tanks g)) in
    let on_player :=
      Tank.alive (PlayerTank.base (Game.player_tank g)) = true ∧
      Rect.colliderect spawn_rect
        (Tank.get_rect (PlayerTank.base (Game.player_tank g))) = true in
    let on_enemy :=
      ∃ e, e ∈ Game.enemy_tanks g ∧
           Tank.alive (EnemyTank.base e) = true ∧
           Rect.colliderect spawn_rect (Tank.get_rect (EnemyTank.base e))
             = true in
    (crowded ∨ on_player ∨ on_enemy ->
       ∃ w', Game.spawn_enemy cfg g w = Some ((false, g), w')) ∧
    (¬ crowded -> ¬ on_player -> ¬ on_enemy ->
       ∃ e w',
         Game.spawn_enemy cfg g w
           = Some ((true, Game.with_enemy_tanks g (Game.enemy_tanks g ++ [e])),
                   w') ∧
         Tank.x (EnemyTank.base e) = x ∧ Tank.y (EnemyTank.base e) = y ∧
         Tank.alive (EnemyTank.base e) = true).
Proof.
  intros Hpos.
  destruct (random_choice_some (Game.enemy_spawn_positions g) w)
    as ([x y] & Hin & Hchoice); [by rewrite Hpos|].
  exists x, y. split; [by rewrite <- Hpos|]. split; [done|].
  cbv zeta. unfold Game.spawn_enemy.
  destruct (Z.leb_spec 5 (Z.of_nat (length (Game.enemy_tanks g))))
    as [Hfull | Hroom].
  { split; [by eexists | intros Hn; by destruct Hn]. }
  rewrite (bind_run _ _ _ _ _ Hchoice).
  set (spawn_rect := Rect.mk _ _ _ _).
  destruct (Tank.alive (PlayerTank.base (Game.player_tank g)) &&
            Rect.colliderect spawn_rect
              (Tank.get_rect (PlayerTank.base (Game.player_tank g))))
    eqn:Hplayer.
  { apply andb_prop in Hplayer. split; [by eexists | tauto]. }
  destruct (Game.spawn_blocked spawn_rect (Game.enemy_tanks g)) eqn:Henemy.
  { apply spawn_blocked_true in Henemy. split; [by eexists | tauto]. }
  split.
  - intros [Hfull | [[Ha Hc] | Hon]].
    + lia.
    + rewrite Ha, Hc in Hplayer. done.
    + apply spawn_blocked_true in Hon. congruence.
  - intros _ _ _. unfold bind, random_random.
    match goal with
    | |- context [Qlt_le_dec ?a ?b] => destruct (Qlt_le_dec a b)
    end; do 2 eexists; (split; [reflexivity | done]).
Qed.

Lemma spawn_enemy_spec_witness :
  (∃ e w',
     Game.spawn_enemy demo_config (demo_game demo_start_player [] [])
       (world_of [] [1; 0])
     = Some ((true, Game.with_enemy_tanks (demo_game demo_start_player [] []) [e]),
             w') ∧
     Tank.x (EnemyTank.base e) = 680 ∧ Tank.y (EnemyTank.base e) = 60 ∧
     Tank.alive (EnemyTank.base e) = true) ∧
  (∃ w',
     Game.spawn_enemy demo_config
       (demo_game demo_start_player [EnemyTank.init demo_config 690 70] [])
       (world_of [] [1; 0])
     = Some ((false,
              demo_game demo_start_player [EnemyTank.init demo_config 690 70] []),
             w')).
Proof.
  split.
  - destruct (spawn_enemy_spec demo_config (demo_game demo_start_player [] [])
                (world_of [] [1; 0]) eq_refl)
      as (x & y & _ & Hchoice & _ & Hfree).
    vm_compute in Hchoice. injection Hchoice as <- <-.
    apply Hfree.
    + vm_compute. intros Hle. by apply Hle.
    + intros [_ Hhit]. vm_compute in Hhit. discriminate.
    + intros (e & Hin & _). by apply elem_of_nil in Hin.
  - destruct (spawn_enemy_spec demo_config
                (demo_game demo_start_player [EnemyTank.init demo_config 690 70] [])
                (world_of [] [1; 0]) eq_refl)
      as (x & y & _ & Hchoice & Hreject & _).
    vm_compute in Hchoice. injection Hchoice as <- <-.
    apply Hreject. right. right.
    exists (EnemyTank.init demo_config 690 70).
    split; [apply list_elem_of_here|]. split; reflexivity.
Defined.

(** The sentence of C9 that fails without the proviso on the player: the
    player has lost its last life at the anchor [(740, 60)], so its square
    coincides with the new enemy's square, and the attempt still succeeds
    and appends an enemy there. *)
Lemma spawn_enemy_over_dead_player :
  Rect.colliderect
    (Rect.mk (740 - TANK_SIZE demo_config / 2) (60 - TANK_SIZE demo_config / 2)
             (TANK_SIZE demo_config) (TANK_SIZE demo_config))
    (Tank.get_rect (PlayerTank.base demo_dead_player)) = true ∧
  fst <$> random_choice (Game.spawn_positions demo_config) (world_of [] [0; 0])
    = Some (740, 60) ∧
  fst <$> Game.spawn_enemy demo_config (demo_game demo_dead_player [] [])
            (world_of [] [0; 0])
    = Some (true,
            Game.with_enemy_tanks (demo_game demo_dead_player [] [])
              [EnemyTank.init_smart demo_config 740 60]) ∧
  ¬ (∃ w', Game.spawn_enemy demo_config (demo_game demo_dead_player [] [])
             (world_of [] [0; 0])
           = Some ((false, demo_game demo_dead_player [] []), w')).
Proof.
  split; [reflexivity|]. split; [reflexivity|]. split; [reflexivity|].
  intros (w' & Hrun). vm_compute in Hrun. discriminate.
Qed.

(** ** The collision pass *)

(** A bullet that meets the map is resolved there: the tile under its
    centre is destroyed when it is a brick, the bullet is deactivated, and
    the player and the enemies are not consulted (they are returned as they
    were) even when the bullet overlaps one of them. *)
Lemma collide_bullet_map_first (g : Game.t) (i : nat) (bullet : Bullet.t)
    (w : World) :
  well_formed (Game.game_map g) ->
  Game.bullets g !! i = Some bullet ->
  Bullet.active bullet = true ->
  GameMap.check_collision_with_rect (Game.game_map g) (Bullet.get_rect bullet)
    = Some true ->
  ∃ g', Game.collide_bullet i g w = Some (g', w) ∧
        Game.enemy_tanks g' = Game.enemy_tanks g ∧
        Game.player_tank g' = Game.player_tank g ∧
        Game.bullets g' = <[i := Bullet.destroy bullet]> (Game.bullets g) ∧
        (GameMap.get_tile_at_position (Game.game_map g)
           (Bullet.x bullet) (Bullet.y bullet) = Some BRICK_WALL ->
         GameMap.get_tile_at_position (Game.game_map g')
           (Bullet.x bullet) (Bullet.y bullet) = Some EMPTY) ∧
        (GameMap.get_tile_at_position (Game.game_map g)
           (Bullet.x bullet) (Bullet.y bullet) ≠ Some BRICK_WALL ->
         Game.game_map g' = Game.game_map g).
Proof.
  intros Hwf Hb Hact Hhit. unfold Game.collide_bullet.
  rewrite Hb, Hact. cbn [negb].
  unfold bind at 1. unfold lift at 1. rewrite Hhit.
  unfold bind at 1. unfold lift at 1. unfold GameMap.can_destroy_tile.
  destruct (get_tile_total (Game.game_map g) (Bullet.x bullet)
              (Bullet.y bullet) Hwf) as [tile Htile].
  rewrite Htile. cbn [mbind option_bind].
  destruct (decide (tile = BRICK_WALL)) as [-> | Hother].
  - rewrite bool_decide_eq_true_2 by done.
    destruct (destroy_tile_brick _ _ _ Hwf Htile)
      as (m' & Hrun & _ & Hempty & _).
    unfold bind, lift. rewrite Hrun. simpl.
    eexists. split; [reflexivity|]. simpl. repeat split; try done.
  - rewrite bool_decide_eq_false_2 by done.
    unfold bind, ret.
    eexists. split; [reflexivity|]. simpl. repeat split; try done.
    intros [= ->]. done.
Qed.

(** The scenario of C1: the bullet overlaps the brick and a living enemy;
    the brick goes, the bullet goes, the enemy stays alive. *)
Example brick_before_enemy :
  (Game.check_collisions demo_brick_and_enemy demo_world ≫= fun r =>
   Some (alive_flags r.1,
         GameMap.get_tile_at_position (Game.game_map r.1) 239 220))
  = Some (([true], [false]), Some EMPTY).
Proof. vm_compute. reflexivity. Qed.

(** C1 fails on the enemy branch.  In [demo_clash] the player bullet (first
    in the list) overlaps a living enemy and an active enemy bullet.  Its
    turn in the loop kills the enemy, deactivates the bullet, and then still
    runs the scan over the other bullets, which deactivates the enemy
    bullet too: the branch ends with [break] (out of the enemy scan), not
    with the [continue] of the map and player branches. *)
Theorem check_collisions_enemy_hit_still_scans_bullets :
  alive_flags demo_clash = ([true], [true; true]) ∧
  (Game.collide_bullet 0 demo_clash demo_world ≫= fun r =>
   Some (alive_flags r.1)) = Some ([false], [false; false]) ∧
  (Game.check_collisions demo_clash demo_world ≫= fun r =>
   Some (alive_flags r.1)) = Some ([false], [false; false]).
Proof.
  split; [reflexivity|]. split; vm_compute; reflexivity.
Qed.

(** * Further properties of the code *)

(** ** Input of the player *)

Lemma any_impassable_total (m : GameMap.t) (cs : list (Z * Z)) :
  well_formed m -> ∃ b, GameMap.any_impassable m cs = Some b.
Proof.
  intros Hwf. induction cs as [|[cx cy] cs IH]; [by eexists|].
  simpl. destruct (is_passable_total m cx cy Hwf) as [b ->]. simpl.
  destruct b; simpl; [done | by eexists].
Qed.

(** What [move] returns for a living tank: the tank turned to [d], and
    advanced by one step when it reports [True]. *)
Lemma move_result (cfg : Config) (s : Tank.t) (d : Direction) (m : GameMap.t) :
  well_formed m -> Tank.alive s = true ->
  ∃ moved : bool,
    Tank.move cfg s d m =
    Some (moved,
          if moved
          then Tank.with_pos (Tank.with_direction s d)
                 (Tank.x s + (DIRECTIONS cfg d).1 * Tank.speed s)
                 (Tank.y s + (DIRECTIONS cfg d).2 * Tank.speed s)
          else Tank.with_direction s d).
Proof.
  intros Hwf Halive. rewrite (move_alive cfg s d m Halive). cbv zeta.
  set (cs := GameMap.corners _).
  destruct (any_impassable_total m cs Hwf) as [[|] ->].
  - by exists false.
  - by exists true.
Qed.

Ltac steer_case Hstep d :=
  let s1 := fresh "s" in
  let Hpos := fresh "Hpos" in
  destruct (Hstep d) as (s1 & -> & ? & ? & ? & ? & ? & Hpos);
  exists s1; repeat split; auto;
  destruct Hpos; [by left | right; by exists d].

Lemma steer_result (cfg : Config) (s : Tank.t) (keys : Keys) (m : GameMap.t) :
  well_formed m -> Tank.alive s = true ->
  ∃ s1, PlayerTank.steer cfg s keys m = Some s1 ∧
        Tank.alive s1 = true ∧
        Tank.last_shot_time s1 = Tank.last_shot_time s ∧
        Tank.shot_cooldown s1 = Tank.shot_cooldown s ∧
        Tank.size s1 = Tank.size s ∧
        Tank.direction s1 = default (Tank.direction s) (first_pressed keys) ∧
        ((Tank.x s1 = Tank.x s ∧ Tank.y s1 = Tank.y s) ∨
         ∃ d, first_pressed keys = Some d ∧
              Tank.x s1 = Tank.x s + (DIRECTIONS cfg d).1 * Tank.speed s ∧
              Tank.y s1 = Tank.y s + (DIRECTIONS cfg d).2 * Tank.speed s).
Proof.
  intros Hwf Halive. unfold PlayerTank.steer, first_pressed.
  assert (Hstep : ∀ d,
    ∃ s1, snd <$> Tank.move cfg s d m = Some s1 ∧
          Tank.alive s1 = true ∧
          Tank.last_shot_time s1 = Tank.last_shot_time s ∧
          Tank.shot_cooldown s1 = Tank.shot_cooldown s ∧
          Tank.size s1 = Tank.size s ∧
          Tank.direction s1 = d ∧
          ((Tank.x s1 = Tank.x s ∧ Tank.y s1 = Tank.y s) ∨
           (Tank.x s1 = Tank.x s + (DIRECTIONS cfg d).1 * Tank.speed s ∧
            Tank.y s1 = Tank.y s + (DIRECTIONS cfg d).2 * Tank.speed s))).
  { intros d. destruct (move_result cfg s d m Hwf Halive) as [[|] ->];
      eexists; (split; [reflexivity|]); simpl; repeat split; auto. }
  destruct (K_UP keys || K_w keys); [steer_case Hstep UP|].
  destruct (K_DOWN keys || K_s keys); [steer_case Hstep DOWN|].
  destruct (K_LEFT keys || K_a keys); [steer_case Hstep LEFT|].
  destruct (K_RIGHT keys || K_d keys); [steer_case Hstep RIGHT|].
  exists s. repeat split; auto.
Qed.

(** X1.  [handle_input] on a living player, on a well-formed map.  With several
    direction keys held only the first in the order Up, Down, Left, Right
    is attempted: the player ends up facing it and has moved by at most one
    step along it; with none held, facing and position stay.  A bullet is
    returned exactly when the fire key is held and the cooldown has passed,
    and it leaves from the front of the tank as it is after the move.
    Lives, invulnerability and the respawn anchor are not touched. *)
Theorem handle_input_spec (cfg : Config) (p : PlayerTank.t) (keys : Keys)
    (m : GameMap.t) (w : World) :
  well_formed m ->
  Tank.alive (PlayerTank.base p) = true ->
  ∃ shot p' w',
    PlayerTank.handle_input cfg p keys m w = Some ((shot, p'), w') ∧
    p' = PlayerTank.with_base p (PlayerTank.base p') ∧
    Tank.direction (PlayerTank.base p') =
      default (Tank.direction (PlayerTank.base p)) (first_pressed keys) ∧
    ((Tank.x (PlayerTank.base p') = Tank.x (PlayerTank.base p) ∧
      Tank.y (PlayerTank.base p') = Tank.y (PlayerTank.base p)) ∨
     ∃ d, first_pressed keys = Some d ∧
          Tank.x (PlayerTank.base p') =
            Tank.x (PlayerTank.base p)
            + (DIRECTIONS cfg d).1 * Tank.speed (PlayerTank.base p) ∧
          Tank.y (PlayerTank.base p') =
            Tank.y (PlayerTank.base p)
            + (DIRECTIONS cfg d).2 * Tank.speed (PlayerTank.base p)) ∧
    (is_Some shot <->
     K_SPACE keys = true ∧
     Tank.shot_cooldown (PlayerTank.base p)
       <= now w - Tank.last_shot_time (PlayerTank.base p)) ∧
    (∀ b, shot = Some b ->
          Bullet.owner b = "player" ∧
          Bullet.direction b = Tank.direction (PlayerTank.base p') ∧
          (Bullet.x b, Bullet.y b) =
            Tank.get_front_position cfg (PlayerTank.base p')).
Proof.
  intros Hwf Halive.
  destruct (steer_result cfg (PlayerTank.base p) keys m Hwf Halive)
    as (s1 & Hsteer & Halive1 & Hlast & Hcool & Hsize & Hdir & Hpos).
  unfold PlayerTank.handle_input. rewrite Halive. cbn [negb].
  assert (Hlift : lift (PlayerTank.steer cfg (PlayerTank.base p) keys m) w
                  = Some (s1, w)) by (unfold lift; by rewrite Hsteer).
  rewrite (bind_run _ _ _ _ _ Hlift).
  destruct (K_SPACE keys) eqn:Hspace.
  - destruct (Z.lt_ge_cases (now w - Tank.last_shot_time s1)
                (Tank.shot_cooldown s1)) as [Hsoon | Hready].
    + rewrite (bind_run _ _ _ _ _
                 (shoot_refused cfg s1 "player" w (or_intror Hsoon))).
      do 3 eexists. split; [reflexivity|]. simpl.
      split; [done|]. split; [done|]. split; [done|]. split.
      * split; [intros [? [=]] | intros [_ ?]; lia].
      * intros b [=].
    + rewrite (bind_run _ _ _ _ _
                 (shoot_granted cfg s1 "player" w Halive1 Hready)).
      do 3 eexists. split; [reflexivity|]. simpl.
      split; [done|]. split; [done|]. split; [done|]. split.
      * split; [intros _; split; [done | lia] | by eexists].
      * intros b [= <-]. unfold Bullet.init, Tank.get_front_position. simpl.
        destruct (DIRECTIONS cfg (Tank.direction s1)). done.
  - do 3 eexists. split; [reflexivity|]. simpl.
    split; [done|]. split; [done|]. split; [done|]. split.
    + split; [intros [? [=]] | intros [[=] _]].
    + intros b [=].
Qed.

Lemma handle_input_spec_witness :
  ∃ shot p' w',
    PlayerTank.handle_input demo_config demo_start_player demo_keys demo_arena
      (world_of [1000; 1001] []) = Some ((shot, p'), w') ∧
    Tank.direction (PlayerTank.base p') = UP ∧
    is_Some shot.
Proof.
  destruct (handle_input_spec demo_config demo_start_player demo_keys
              demo_arena (world_of [1000; 1001] []))
    as (shot & p' & w' & Hrun & _ & Hdir & _ & Hshot & _).
  - split; [done|]. split; [reflexivity|]. vm_compute. repeat constructor.
  - reflexivity.
  - exists shot, p', w'. split; [done|]. split; [exact Hdir|].
    apply Hshot. split; [reflexivity|]. vm_compute. discriminate.
Defined.

(** ** Lives of the player *)

Lemma add_life_fields (p : PlayerTank.t) :
  PlayerTank.add_life p = PlayerTank.with_lives p (PlayerTank.lives (PlayerTank.add_life p)) ∧
  PlayerTank.max_lives (PlayerTank.add_life p) = PlayerTank.max_lives p.
Proof.
  unfold PlayerTank.add_life.
  destruct (PlayerTank.lives p <? PlayerTank.max_lives p * 2); [done|].
  by destruct p.
Qed.

(** X2.  For a player whose lives do not exceed twice [max_lives], [n] calls of
    [add_life] leave [min (lives + n) (2 * max_lives)] lives and change no
    other field: the counter never passes the cap. *)
Theorem add_life_capped (p : PlayerTank.t) (n : nat) :
  PlayerTank.lives p <= PlayerTank.max_lives p * 2 ->
  let q := Nat.iter n PlayerTank.add_life p in
  PlayerTank.lives q =
    Z.min (PlayerTank.lives p + Z.of_nat n) (PlayerTank.max_lives p * 2) ∧
  q = PlayerTank.with_lives p (PlayerTank.lives q).
Proof.
  intros Hcap. cbv zeta. induction n as [|n IH].
  - simpl. split; [lia | by destruct p].
  - destruct IH as [Hlives Hrest].
    change (Nat.iter (S n) PlayerTank.add_life p)
      with (PlayerTank.add_life (Nat.iter n PlayerTank.add_life p)).
    set (q := Nat.iter n PlayerTank.add_life p) in *.
    assert (Hmax : PlayerTank.max_lives q = PlayerTank.max_lives p)
      by (rewrite Hrest; reflexivity).
    destruct (add_life_fields q) as [Hq _].
    assert (Hstep : PlayerTank.lives (PlayerTank.add_life q) =
                    Z.min (PlayerTank.lives p + Z.of_nat (S n))
                          (PlayerTank.max_lives p * 2)).
    { unfold PlayerTank.add_life. rewrite Hmax.
      destruct (Z.ltb_spec (PlayerTank.lives q) (PlayerTank.max_lives p * 2));
        simpl; lia. }
    split; [done|].
    rewrite Hq at 1. rewrite Hrest at 1. reflexivity.
Qed.

Lemma add_life_capped_witness :
  PlayerTank.lives (Nat.iter 2 PlayerTank.add_life demo_start_player) = 5 ∧
  PlayerTank.lives (Nat.iter 9 PlayerTank.add_life demo_start_player) = 6.
Proof.
  split.
  - apply (add_life_capped demo_start_player 2). vm_compute. discriminate.
  - apply (add_life_capped demo_start_player 9). vm_compute. discriminate.
Defined.

(** X3.  [reset] brings a player back to the state its constructor built,
    whatever has happened to its position, facing, alive flag, lives,
    invulnerability and cooldown since. *)
Theorem reset_restores_constructor (cfg : Config) (x0 y0 lives0 : Z)
    (p : PlayerTank.t) :
  same_make p (PlayerTank.init cfg x0 y0 lives0) ->
  PlayerTank.reset p = PlayerTank.init cfg x0 y0 lives0.
Proof.
  intros (Hc & Hsz & Hsp & Hcd & Hmv & Htx & Hty & Hml & Hdur & Hrx & Hry).
  destruct p as [[x y d c sz sp al lst cd mv tx ty] l ml it dur rx ry].
  simpl in *. subst. reflexivity.
Qed.

(** Every operation on a player keeps its make, so [reset] undoes it. *)
Lemma take_damage_same_make (p p' : PlayerTank.t) (w w' : World) :
  PlayerTank.take_damage p w = Some (p', w') -> same_make p' p.
Proof.
  unfold PlayerTank.take_damage, PlayerTank.respawn, bind, get_ticks, ret.
  destruct (now w <? PlayerTank.invulnerable_time p).
  - intros [= <- _]. by repeat split.
  - destruct (0 <? PlayerTank.lives _);
      intros [= <- _]; by repeat split.
Qed.

Lemma reset_restores_constructor_witness :
  ∃ p' w',
    PlayerTank.take_damage demo_start_player (world_of [100; 101] [])
      = Some (p', w') ∧
    PlayerTank.lives p' = 2 ∧
    PlayerTank.reset p' = demo_start_player.
Proof.
  exists (PlayerTank.with_invulnerable_time
            (PlayerTank.with_lives demo_start_player 2) 2101),
         (tick (tick (world_of [100; 101] []))).
  split; [reflexivity|]. split; [reflexivity|].
  apply (reset_restores_constructor demo_config 80 520 3).
  apply (take_damage_same_make _ _ (world_of [100; 101] [])
           (tick (tick (world_of [100; 101] [])))).
  reflexivity.
Defined.

(** X4.  A hit that costs a life opens the invulnerability window: as long as
    the clock is below the reading taken at respawn plus the duration, the
    player reports invulnerable and a further [take_damage] changes
    nothing; once the clock has reached that value it is vulnerable
    again. *)
Theorem respawn_window (p : PlayerTank.t) (w w2 : World) :
  PlayerTank.invulnerable_time p <= now w ->
  2 <= PlayerTank.lives p ->
  ∃ p1,
    PlayerTank.take_damage p w = Some (p1, tick (tick w)) ∧
    PlayerTank.lives p1 = PlayerTank.lives p - 1 ∧
    (now w2 < now (tick w) + PlayerTank.invulnerable_duration p ->
       PlayerTank.is_invulnerable p1 w2 = Some (true, tick w2) ∧
       PlayerTank.take_damage p1 w2 = Some (p1, tick w2)) ∧
    (now (tick w) + PlayerTank.invulnerable_duration p <= now w2 ->
       PlayerTank.is_invulnerable p1 w2 = Some (false, tick w2) ∧
       ∃ p2 w2', PlayerTank.take_damage p1 w2 = Some (p2, w2') ∧
                 PlayerTank.lives p2 = PlayerTank.lives p - 2).
Proof.
  intros Hopen Hlives.
  unfold PlayerTank.take_damage at 1.
  unfold bind, get_ticks, PlayerTank.respawn, ret.
  apply Z.ltb_ge in Hopen. rewrite Hopen. cbn [PlayerTank.lives PlayerTank.with_lives].
  assert (Hpos : (0 <? PlayerTank.lives p - 1) = true) by (apply Z.ltb_lt; lia).
  rewrite Hpos. eexists. split; [reflexivity|]. split; [reflexivity|].
  unfold PlayerTank.is_invulnerable, PlayerTank.take_damage, bind, get_ticks, ret.
  cbn [PlayerTank.invulnerable_time PlayerTank.with_invulnerable_time
       PlayerTank.invulnerable_duration PlayerTank.with_lives
       PlayerTank.with_base PlayerTank.lives].
  split.
  - intros Hin. apply Z.ltb_lt in Hin. by rewrite Hin.
  - intros Hout. apply Z.ltb_ge in Hout. rewrite Hout.
    split; [done|].
    destruct (0 <? PlayerTank.lives p - 1 - 1);
      do 2 eexists; (split; [reflexivity|]); simpl; lia.
Qed.

Lemma respawn_window_witness :
  ∃ p1,
    PlayerTank.take_damage demo_start_player (world_of [100; 101] [])
      = Some (p1, tick (tick (world_of [100; 101] []))) ∧
    PlayerTank.lives p1 = 2 ∧
    PlayerTank.take_damage p1 (world_of [2100] [])
      = Some (p1, tick (world_of [2100] [])).
Proof.
  destruct (respawn_window demo_start_player (world_of [100; 101] [])
              (world_of [2100] []))
    as (p1 & Hrun & Hlives & Hin & _).
  - vm_compute. discriminate.
  - vm_compute. discriminate.
  - exists p1. split; [done|]. split; [exact Hlives|].
    apply Hin. reflexivity.
Defined.

(** ** A bullet hits once *)

(** X5.  [check_collision_with_bullet] reports a hit exactly when the tank is
    alive, the bullet is active and the two squares overlap.  A reported
    hit deactivates the bullet without moving it, and from then on every
    check of that bullet against any tank or rectangle reports no hit and
    changes nothing; a check that reports no hit returns the bullet as it
    was. *)
Theorem bullet_hits_once (s : Tank.t) (b : Bullet.t) :
  let '(hit, b') := Tank.check_collision_with_bullet s b in
  (hit = true <->
     Tank.alive s = true ∧ Bullet.active b = true ∧
     Rect.colliderect (Bullet.get_rect b) (Tank.get_rect s) = true) ∧
  (hit = false -> b' = b) ∧
  (hit = true ->
     b' = Bullet.with_active b false ∧
     (∀ s2, Tank.check_collision_with_bullet s2 b' = (false, b')) ∧
     (∀ r, Bullet.check_collision_with_rect b' r = (false, b'))).
Proof.
  unfold Tank.check_collision_with_bullet, Bullet.check_collision_with_rect.
  destruct (Tank.alive s), (Bullet.active b) eqn:Hact; simpl;
    try (split; [split; [done | intros (? & ? & ?); done] | split; done]).
  destruct (Rect.colliderect (Bullet.get_rect b) (Tank.get_rect s)) eqn:Hhit.
  - split; [done|]. split; [done|]. intros _. split; [done|].
    split; [intros s2; simpl; by rewrite orb_true_r | done].
  - split; [split; [done | intros (? & ? & ?); done] | split; done].
Qed.

(** ** Corner sampling *)



(** ** Tiles and their rectangles *)

(** X7.  With a positive tile size, the pixels of [get_tile_rect tile_x tile_y]
    are exactly the positions whose tile coordinates are
    [(tile_x, tile_y)]: every pixel of the rectangle is looked up in that
    cell, and every position lies in the rectangle of its own cell. *)
Theorem tile_rect_round_trip (m : GameMap.t) (tile_x tile_y x y : Z) :
  0 < GameMap.tile_size m ->
  let r := GameMap.get_tile_rect m tile_x tile_y in
  (Rect.left r <= x < Rect.right r ∧ Rect.top r <= y < Rect.bottom r <->
   x / GameMap.tile_size m = tile_x ∧ y / GameMap.tile_size m = tile_y) ∧
  (Rect.left r <= x < Rect.right r -> Rect.top r <= y < Rect.bottom r ->
   0 <= tile_x < GameMap.width m -> 0 <= tile_y < GameMap.height m ->
   GameMap.get_tile_at_position m x y =
   py_getitem2 (GameMap.map_data m) tile_y tile_x).
Proof.
  intros Hts. cbv zeta.
  unfold GameMap.get_tile_rect, Rect.right, Rect.bottom. simpl.
  assert (Hcell : ∀ v t, t * GameMap.tile_size m <= v
                         < t * GameMap.tile_size m + GameMap.tile_size m
                         <-> v / GameMap.tile_size m = t).
  { intros v t. split.
    - intros Hv. symmetry. apply (Z.div_unique_pos v _ t (v - t * GameMap.tile_size m)); lia.
    - intros <-. pose proof (Z.mul_div_le v _ Hts).
      pose proof (Z.mul_succ_div_gt v _ Hts). lia. }
  split.
  - rewrite <- (Hcell x tile_x), <- (Hcell y tile_y). tauto.
  - intros Hx Hy Hcol Hrow.
    apply Hcell in Hx, Hy.
    rewrite get_tile_unfold by lia. rewrite Hx, Hy.
    unfold grid_test.
    destruct (Z.leb_spec 0 tile_x), (Z.ltb_spec tile_x (GameMap.width m)),
      (Z.leb_spec 0 tile_y), (Z.ltb_spec tile_y (GameMap.height m));
      (done || lia).
Qed.

Lemma tile_rect_round_trip_witness :
  (Rect.left (GameMap.get_tile_rect demo_map 2 1) <= 90
     < Rect.right (GameMap.get_tile_rect demo_map 2 1) ∧
   Rect.top (GameMap.get_tile_rect demo_map 2 1) <= 50
     < Rect.bottom (GameMap.get_tile_rect demo_map 2 1)) ∧
  GameMap.get_tile_at_position demo_map 90 50 = Some BRICK_WALL.
Proof.
  destruct (tile_rect_round_trip demo_map 2 1 90 50) as [Hiff Hget];
    [reflexivity|].
  assert (Hin : Rect.left (GameMap.get_tile_rect demo_map 2 1) <= 90
                  < Rect.right (GameMap.get_tile_rect demo_map 2 1) ∧
                Rect.top (GameMap.get_tile_rect demo_map 2 1) <= 50
                  < Rect.bottom (GameMap.get_tile_rect demo_map 2 1)).
  { apply Hiff. split; reflexivity. }
  split; [exact Hin|].
  rewrite Hget; [reflexivity | apply Hin | apply Hin | |]; vm_compute; split; congruence.
Defined.

(** ** Stuck detection *)

(** X8.  [is_stuck] counts consecutive calls that find the enemy where the
    previous call left it: after [n] such calls the counter has grown by
    [n], and the next call answers [True] exactly when the count then
    exceeds [max_stuck_time].  A call that finds the enemy elsewhere
    records the new position and restarts the count at 0. *)
Theorem is_stuck_counts (e : EnemyTank.t) (n : nat) :
  (EnemyTank.last_position e = enemy_pos e ->
   let e' := Nat.iter n after_is_stuck e in
   EnemyTank.stuck_counter e' = EnemyTank.stuck_counter e + Z.of_nat n ∧
   e' = EnemyTank.with_stuck_counter e (EnemyTank.stuck_counter e') ∧
   (EnemyTank.is_stuck e').1 =
     (EnemyTank.max_stuck_time e <? EnemyTank.stuck_counter e + Z.of_nat n + 1)) ∧
  (EnemyTank.last_position e ≠ enemy_pos e ->
   EnemyTank.is_stuck e =
     (EnemyTank.max_stuck_time e <? 0,
      EnemyTank.with_last_position (EnemyTank.with_stuck_counter e 0)
        (enemy_pos e))).
Proof.
  split.
  - intros Hsame. cbv zeta.
    assert (Hiter :
      let e' := Nat.iter n after_is_stuck e in
      EnemyTank.stuck_counter e' = EnemyTank.stuck_counter e + Z.of_nat n ∧
      e' = EnemyTank.with_stuck_counter e (EnemyTank.stuck_counter e')).
    { induction n as [|n IH]; cbv zeta.
      - simpl. split; [lia | by destruct e].
      - change (Nat.iter (S n) after_is_stuck e)
          with (after_is_stuck (Nat.iter n after_is_stuck e)).
        destruct IH as [Hcount Hrest].
        set (e' := Nat.iter n after_is_stuck e) in *.
        unfold after_is_stuck, EnemyTank.is_stuck.
        rewrite bool_decide_eq_true_2
          by (rewrite Hrest; simpl; symmetry; exact Hsame).
        simpl. split; [lia|]. rewrite Hrest at 1. reflexivity. }
    destruct Hiter as [Hcount Hrest]. split; [done|]. split; [done|].
    set (e' := Nat.iter n after_is_stuck e) in *.
    unfold EnemyTank.is_stuck.
    rewrite bool_decide_eq_true_2
      by (rewrite Hrest; simpl; symmetry; exact Hsame).
    simpl. rewrite Hcount. rewrite Hrest. reflexivity.
  - intros Hmoved. unfold EnemyTank.is_stuck.
    rewrite bool_decide_eq_false_2 by (intros Heq; by apply Hmoved).
    reflexivity.
Qed.

Lemma is_stuck_counts_witness :
  (EnemyTank.is_stuck
     (Nat.iter 29 after_is_stuck (EnemyTank.init demo_config 400 300))).1 = false ∧
  (EnemyTank.is_stuck
     (Nat.iter 30 after_is_stuck (EnemyTank.init demo_config 400 300))).1 = true.
Proof.
  split.
  - destruct (is_stuck_counts (EnemyTank.init demo_config 400 300) 29)
      as [Hstill _].
    destruct Hstill as (_ & _ & ->); reflexivity.
  - destruct (is_stuck_counts (EnemyTank.init demo_config 400 300) 30)
      as [Hstill _].
    destruct Hstill as (_ & _ & ->); reflexivity.
Defined.

(** ** The initial batch of enemies *)

Lemma spawn_initial_enemies_run (cfg : Config) (g : Game.t) (w : World) :
  ∃ new w',
    Game.spawn_initial_enemies cfg g w
      = Some (Game.with_enemy_tanks g (Game.enemy_tanks g ++ new), w') ∧
    map enemy_pos new =
      take (Z.to_nat (Z.min 3 (Game.max_enemies_per_level g)))
           (Game.enemy_spawn_positions g) ∧
    Forall (fun e => Tank.alive (EnemyTank.base e) = true) new.
Proof.
  unfold Game.spawn_initial_enemies.
  set (hi := Z.min 3 (Game.max_enemies_per_level g)).
  destruct (Z.le_gt_cases 0 hi) as [Hhi | Hneg].
  2: { exists [], w. unfold for_range.
       replace (Z.to_nat (hi - 0)) with 0%nat by lia.
       replace (Z.to_nat hi) with 0%nat by lia.
       rewrite app_nil_r. simpl. split; [by destruct g | done]. }
  destruct (for_range_invariant
              (fun i g' =>
                 ∃ new,
                   g' = Game.with_enemy_tanks g (Game.enemy_tanks g ++ new) ∧
                   map enemy_pos new =
                     take (Z.to_nat i) (Game.enemy_spawn_positions g) ∧
                   Forall (fun e => Tank.alive (EnemyTank.base e) = true) new)
              (Game.spawn_initial cfg) 0 hi g w Hhi)
    as (g' & w' & Hrun & new & -> & Hpos & Halive).
  - intros i g1 w1 Hi (new & -> & Hpos & Halive).
    unfold Game.spawn_initial.
    cbn [Game.enemy_spawn_positions Game.with_enemy_tanks Game.enemy_tanks].
    destruct (Z.ltb_spec i (Z.of_nat (length (Game.enemy_spawn_positions g))))
      as [Hin | Hout].
    + destruct (lookup_lt_is_Some_2 (Game.enemy_spawn_positions g) (Z.to_nat i))
        as [[x y] Hxy]; [lia|].
      assert (Hget : lift (py_getitem (Game.enemy_spawn_positions g) i) w1
                     = Some ((x, y), w1)).
      { unfold lift. rewrite py_getitem_in_range by lia. by rewrite Hxy. }
      rewrite (bind_run _ _ _ _ _ Hget). unfold bind, random_random, ret.
      do 2 eexists. split; [reflexivity|].
      eexists. split; [by rewrite <- app_assoc|].
      replace (Z.to_nat (i + 1)) with (S (Z.to_nat i)) by lia.
      rewrite (take_S_r _ _ _ Hxy), map_app, Hpos. split.
      * f_equal. simpl. by destruct (Qlt_le_dec _ _).
      * apply Forall_app. split; [done|]. constructor; [|done].
        by destruct (Qlt_le_dec _ _).
    + exists (Game.with_enemy_tanks g (Game.enemy_tanks g ++ new)), w1.
      split; [done|]. exists new. split; [done|]. split; [|done].
      rewrite Hpos. rewrite !take_ge by lia. done.
  - exists []. rewrite app_nil_r. split; [by destruct g|]. done.
  - exists new, w'. done.
Qed.

(** X9.  [spawn_initial_enemies] never fails and appends, in order, one living
    enemy on each of the first [min 3 max_enemies_per_level] anchors (as
    many as there are anchors, none when the quota is not positive); it
    changes nothing else, and it does not look at what already stands on
    the anchors. *)
Theorem spawn_initial_enemies_spec (cfg : Config) (g : Game.t) (w : World) :
  ∃ new w',
    Game.spawn_initial_enemies cfg g w
      = Some (Game.with_enemy_tanks g (Game.enemy_tanks g ++ new), w') ∧
    map enemy_pos new =
      take (Z.to_nat (Z.min 3 (Game.max_enemies_per_level g)))
           (Game.enemy_spawn_positions g) ∧
    length new =
      Nat.min (Z.to_nat (Z.min 3 (Game.max_enemies_per_level g)))
              (length (Game.enemy_spawn_positions g)) ∧
    Forall (fun e => Tank.alive (EnemyTank.base e) = true) new.
Proof.
  destruct (spawn_initial_enemies_run cfg g w) as (new & w' & Hrun & Hpos & Hal).
  exists new, w'. split; [done|]. split; [done|]. split; [|done].
  rewrite <- (length_map enemy_pos), Hpos. apply length_take.
Qed.

(** ** The layout of a generated map *)

Ltac layout_arith :=
  unfold cross_cells in *; cell_arith.

Lemma fill_cell_writes (m : GameMap.t) (R : Z -> Z -> Tile -> Prop)
    (y x : Z) (d : list (list Tile)) (wd : World) :
  2 <= y < GameMap.height m - 2 -> 2 <= x < GameMap.width m - 2 ->
  (∀ y x v, fill_target (GameMap.height m) (GameMap.width m) y x ->
            v ≠ EMPTY -> v ≠ GRASS -> R y x v) ->
  cells_ok (GameMap.height m) (GameMap.width m) R d ->
  ∃ d' wd', GameMap.fill_cell m y x d wd = Some (d', wd') ∧
            cells_ok (GameMap.height m) (GameMap.width m) R d'.
Proof.
  intros Hy Hx Hfree Hok. unfold GameMap.fill_cell.
  destruct ((GameMap.height m - 4 <=? y) && (x <=? 3)) eqn:Hplayer;
    [by apply keep_cells|].
  destruct ((y <=? 3) && (GameMap.width m - 4 <=? x)) eqn:Henemy;
    [by apply keep_cells|].
  assert (Htarget : fill_target (GameMap.height m) (GameMap.width m) y x).
  { apply andb_false_iff in Hplayer, Henemy.
    rewrite !Z.leb_gt in Hplayer, Henemy. unfold fill_target. lia. }
  assert (Hin : inside (GameMap.height m) (GameMap.width m) y x)
    by (unfold inside; lia).
  unfold bind, random_random.
  repeat match goal with
         | |- context [Qlt_le_dec ?a ?b] => destruct (Qlt_le_dec a b)
         end;
    (by apply keep_cells) ||
    (eapply write_cell;
     [exact Hok | exact Hin | by apply Hfree | intros; assumption]).
Qed.

Lemma fill_phase_writes (m : GameMap.t) (R : Z -> Z -> Tile -> Prop)
    (d : list (list Tile)) (wd : World) :
  (∀ y x v, fill_target (GameMap.height m) (GameMap.width m) y x ->
            v ≠ EMPTY -> v ≠ GRASS -> R y x v) ->
  cells_ok (GameMap.height m) (GameMap.width m) R d ->
  ∃ d' wd',
    for_range 2 (GameMap.height m - 2) (fun y =>
      for_range 2 (GameMap.width m - 2) (fun x => GameMap.fill_cell m y x))
      d wd = Some (d', wd') ∧
    cells_ok (GameMap.height m) (GameMap.width m) R d'.
Proof.
  intros Hfree Hok.
  apply (for_range_preserve
           (cells_ok (GameMap.height m) (GameMap.width m) R)); [|done].
  intros y d0 w0 Hy Hok0.
  apply (for_range_preserve
           (cells_ok (GameMap.height m) (GameMap.width m) R)); [|done].
  intros x d1 w1 Hx Hok1. by apply fill_cell_writes.
Qed.

Lemma cross_phase_layout (m : GameMap.t) (cy cx : Z)
    (d : list (list Tile)) (wd : World) :
  0 < cy < GameMap.height m - 1 -> 0 < cx < GameMap.width m - 1 ->
  cells_ok (GameMap.height m) (GameMap.width m)
    (layout (GameMap.height m) (GameMap.width m) cy cx (-2)) d ->
  ∃ d' wd',
    for_range (-2) 3 (GameMap.cross_arm m cx cy) d wd = Some (d', wd') ∧
    cells_ok (GameMap.height m) (GameMap.width m)
      (layout (GameMap.height m) (GameMap.width m) cy cx 3) d'.
Proof.
  intros Hcy Hcx Hok.
  apply (for_range_invariant
           (fun i => cells_ok (GameMap.height m) (GameMap.width m)
                       (layout (GameMap.height m) (GameMap.width m) cy cx i)));
    [lia | | done].
  intros i d0 w0 Hi Hok0. unfold GameMap.cross_arm.
  assert (Hfirst :
    ∃ d1 w1,
      (if (1 <? cx + i) && (cx + i <? GameMap.width m - 1)
       then lift (py_setitem2 d0 cy (cx + i) BRICK_WALL)
       else ret d0) w0 = Some (d1, w1) ∧
      cells_ok (GameMap.height m) (GameMap.width m)
        (fun y x t =>
           layout (GameMap.height m) (GameMap.width m) cy cx i y x t ∧
           (y = cy -> x = cx + i -> 1 < x < GameMap.width m - 1 ->
            t = BRICK_WALL)) d1).
  { destruct ((1 <? cx + i) && (cx + i <? GameMap.width m - 1)) eqn:Hguard.
    - apply andb_prop in Hguard as [Hlo Hhi]. apply Z.ltb_lt in Hlo, Hhi.
      eapply write_cell; [exact Hok0 | | |]; unfold layout; layout_arith.
    - apply andb_false_iff in Hguard. rewrite !Z.ltb_ge in Hguard.
      exists d0, w0. split; [done|].
      eapply cells_ok_impl; [|exact Hok0]. unfold layout. layout_arith. }
  destruct Hfirst as (d1 & w1 & Hrun1 & Hok1).
  rewrite (bind_run _ _ _ _ _ Hrun1).
  destruct ((1 <? cy + i) && (cy + i <? GameMap.height m - 1)) eqn:Hguard.
  - apply andb_prop in Hguard as [Hlo Hhi]. apply Z.ltb_lt in Hlo, Hhi.
    eapply write_cell; [exact Hok1 | | |]; unfold layout; layout_arith.
  - apply andb_false_iff in Hguard. rewrite !Z.ltb_ge in Hguard.
    exists d1, w1. split; [done|].
    eapply cells_ok_impl; [|exact Hok1]. unfold layout. layout_arith.
Qed.

Lemma generate_map_cells (m : GameMap.t) (wd : World) :
  grid_shape (GameMap.height m) (GameMap.width m) (GameMap.map_data m) ->
  3 <= GameMap.width m -> 3 <= GameMap.height m ->
  ∃ d' wd',
    GameMap.generate_map m wd = Some (GameMap.with_map_data m d', wd') ∧
    cells_ok (GameMap.height m) (GameMap.width m)
      (layout (GameMap.height m) (GameMap.width m)
         (GameMap.height m / 2) (GameMap.width m / 2) 3) d'.
Proof.
  intros Hshape Hw Hh.
  assert (Hcy : 0 < GameMap.height m / 2 < GameMap.height m - 1).
  { split; [apply Z.div_str_pos; lia | apply Z.div_lt_upper_bound; lia]. }
  assert (Hcx : 0 < GameMap.width m / 2 < GameMap.width m - 1).
  { split; [apply Z.div_str_pos; lia | apply Z.div_lt_upper_bound; lia]. }
  unfold GameMap.generate_map.
  assert (Hh0 : 0 <= GameMap.height m) by lia.
  assert (Hw0 : 0 <= GameMap.width m) by lia.
  assert (Hh1 : 0 < GameMap.height m) by lia.
  assert (Hw1 : 0 < GameMap.width m) by lia.
  destruct (clear_phase _ _ (GameMap.map_data m) wd Hh0 Hw0 Hshape)
    as (d1 & w1 & Hrun1 & Hok1).
  rewrite (bind_run _ _ _ _ _ Hrun1).
  destruct (border_rows_phase _ _ d1 w1 Hh1 Hw0 Hok1)
    as (d2 & w2 & Hrun2 & Hok2).
  rewrite (bind_run _ _ _ _ _ Hrun2).
  destruct (border_columns_phase _ _ d2 w2 Hh0 Hw1 Hok2)
    as (d3 & w3 & Hrun3 & Hok3).
  rewrite (bind_run _ _ _ _ _ Hrun3).
  apply (cells_ok_impl _ _ _
           (layout (GameMap.height m) (GameMap.width m)
              (GameMap.height m / 2) (GameMap.width m / 2) (-2))) in Hok3.
  2: { unfold layout. generalize (GameMap.height m / 2) (GameMap.width m / 2).
       layout_arith. }
  assert (Hfree : ∀ y x v,
            fill_target (GameMap.height m) (GameMap.width m) y x ->
            v ≠ EMPTY -> v ≠ GRASS ->
            layout (GameMap.height m) (GameMap.width m)
              (GameMap.height m / 2) (GameMap.width m / 2) (-2) y x v).
  { unfold layout. generalize (GameMap.height m / 2) (GameMap.width m / 2).
    layout_arith. }
  destruct (fill_phase_writes m _ d3 w3 Hfree Hok3)
    as (d4 & w4 & Hrun4 & Hok4).
  rewrite (bind_run _ _ _ _ _ Hrun4). cbv zeta.
  destruct (cross_phase_layout m _ _ d4 w4 Hcy Hcx Hok4)
    as (d5 & w5 & Hrun5 & Hok5).
  rewrite (bind_run _ _ _ _ _ Hrun5).
  by exists d5, w5.
Qed.

Lemma cross_cells_target (h w y x : Z) :
  cross_target h w y x <-> cross_cells h w (h / 2) (w / 2) 3 y x.
Proof. unfold cross_target, cross_cells. lia. Qed.

(** X10.  On a grid of at least 3 x 3 cells [generate_map] returns a map of the
    same size in which every border cell is [STEEL_WALL], every cell of
    the central cross (arms of length 2, clipped to columns and rows
    [2..size-2]) is [BRICK_WALL], every other cell that the random fill
    skips (the two spawn zones and the ring of rows 1, [height-2] and
    columns 1, [width-2]) is [EMPTY], and no cell at all is [GRASS]. *)
Theorem generate_map_layout (m : GameMap.t) (wd : World) :
  grid_shape (GameMap.height m) (GameMap.width m) (GameMap.map_data m) ->
  3 <= GameMap.width m -> 3 <= GameMap.height m ->
  ∃ m' wd',
    GameMap.generate_map m wd = Some (m', wd') ∧
    GameMap.width m' = GameMap.width m ∧
    GameMap.height m' = GameMap.height m ∧
    GameMap.tile_size m' = GameMap.tile_size m ∧
    grid_shape (GameMap.height m) (GameMap.width m) (GameMap.map_data m') ∧
    ∀ y x, inside (GameMap.height m) (GameMap.width m) y x ->
      ∃ t, py_getitem2 (GameMap.map_data m') y x = Some t ∧
           t ≠ GRASS ∧
           (border (GameMap.height m) (GameMap.width m) y x ->
            t = STEEL_WALL) ∧
           (cross_target (GameMap.height m) (GameMap.width m) y x ->
            t = BRICK_WALL) ∧
           (¬ border (GameMap.height m) (GameMap.width m) y x ->
            ¬ fill_target (GameMap.height m) (GameMap.width m) y x ->
            ¬ cross_target (GameMap.height m) (GameMap.width m) y x ->
            t = EMPTY).
Proof.
  intros Hshape Hw Hh.
  destruct (generate_map_cells m wd Hshape Hw Hh)
    as (d' & wd' & Hrun & Hgrid & Hcells).
  exists (GameMap.with_map_data m d'), wd'.
  split; [done|]. do 3 (split; [done|]). split; [done|].
  intros y x Hin.
  destruct (py_getitem2_in_range _ _ _ y x Hgrid) as [t Ht]; [apply Hin..|].
  exists t. split; [done|].
  destruct (Hcells y x t Hin Ht) as (Hring & Hopen & Hgrass & Hcross).
  split; [done|]. split; [done|]. split.
  - intros Hc. apply Hcross. by apply cross_cells_target.
  - intros Hnb Hnf Hnc. apply Hopen; [done..|]. intros Hc. apply Hnc.
    by apply cross_cells_target.
Qed.

Lemma generate_map_layout_witness :
  ∃ m' wd',
    GameMap.generate_map (GameMap.blank demo_config) demo_world
      = Some (m', wd') ∧
    py_getitem2 (GameMap.map_data m') 7 12 = Some BRICK_WALL ∧
    py_getitem2 (GameMap.map_data m') 1 9 = Some EMPTY.
Proof.
  destruct (generate_map_layout (GameMap.blank demo_config) demo_world)
    as (m' & wd' & Hrun & _ & _ & _ & _ & Hcells).
  - split; [reflexivity|]. vm_compute. repeat constructor.
  - vm_compute. discriminate.
  - vm_compute. discriminate.
  - exists m', wd'. split; [done|]. split.
    + destruct (Hcells 7 12) as (t & -> & _ & _ & Hcross & _).
      { vm_compute. repeat split; congruence. }
      f_equal. apply Hcross. left. vm_compute. repeat split; congruence.
    + destruct (Hcells 1 9) as (t & -> & _ & _ & _ & Hopen).
      { vm_compute. repeat split; congruence. }
      f_equal. apply Hopen.
      * intros [_ Hring]. vm_compute in Hring. intuition congruence.
      * intros (Hy & _). vm_compute in Hy. destruct Hy as [Hy _]. by apply Hy.
      * intros [(Hy & _) | (Hx & _)]; vm_compute in *; congruence.
Defined.

(** ** The start of a level *)

Lemma start_zone_passable (m : GameMap.t) (d' : list (list Tile)) (x y : Z) :
  0 < GameMap.tile_size m ->
  6 <= GameMap.width m -> 7 <= GameMap.height m ->
  cells_ok (GameMap.height m) (GameMap.width m)
    (layout (GameMap.height m) (GameMap.width m)
       (GameMap.height m / 2) (GameMap.width m / 2) 3) d' ->
  GameMap.tile_size m <= x < 3 * GameMap.tile_size m ->
  (GameMap.height m - 3) * GameMap.tile_size m <= y
    < (GameMap.height m - 1) * GameMap.tile_size m ->
  GameMap.is_passable (GameMap.with_map_data m d') x y = Some true.
Proof.
  intros Hts Hw Hh [Hgrid Hcells] Hx Hy.
  assert (Hcol : 1 <= x / GameMap.tile_size m < 3).
  { split; [apply Z.div_le_lower_bound; lia
           | apply Z.div_lt_upper_bound; lia]. }
  assert (Hrow : GameMap.height m - 3 <= y / GameMap.tile_size m
                 < GameMap.height m - 1).
  { split; [apply Z.div_le_lower_bound; lia
           | apply Z.div_lt_upper_bound; lia]. }
  assert (Hcy : GameMap.height m / 2 <= GameMap.height m - 4).
  { apply Z.lt_succ_r. apply Z.div_lt_upper_bound; lia. }
  assert (Hcx : 3 <= GameMap.width m / 2).
  { apply Z.div_le_lower_bound; lia. }
  unfold GameMap.is_passable.
  rewrite get_tile_unfold by (simpl; lia). simpl.
  revert Hcol Hrow. generalize (x / GameMap.tile_size m) (y / GameMap.tile_size m).
  intros col row Hcol Hrow.
  assert (Hon : grid_test (GameMap.with_map_data m d') col row = true).
  { unfold grid_test. simpl.
    destruct (Z.leb_spec 0 col), (Z.ltb_spec col (GameMap.width m)),
      (Z.leb_spec 0 row), (Z.ltb_spec row (GameMap.height m)); (done || lia). }
  rewrite Hon.
  destruct (py_getitem2_in_range _ _ _ row col Hgrid) as [t Ht]; [lia..|].
  rewrite Ht. simpl.
  assert (Hin : inside (GameMap.height m) (GameMap.width m) row col)
    by (unfold inside; lia).
  destruct (Hcells row col t Hin Ht) as (_ & Hopen & _).
  rewrite Hopen; [done| | |].
  - unfold border. lia.
  - unfold fill_target. lia.
  - revert Hcy Hcx. generalize (GameMap.height m / 2) (GameMap.width m / 2).
    unfold cross_cells. lia.
Qed.

(** A tank at most two tiles wide, centred two tiles from the left and two
    tiles from the bottom of a generated map, touches no obstacle. *)
Lemma start_square_free (m : GameMap.t) (d' : list (list Tile)) (size : Z) :
  0 < GameMap.tile_size m ->
  6 <= GameMap.width m -> 7 <= GameMap.height m ->
  cells_ok (GameMap.height m) (GameMap.width m)
    (layout (GameMap.height m) (GameMap.width m)
       (GameMap.height m / 2) (GameMap.width m / 2) 3) d' ->
  0 <= size <= 2 * GameMap.tile_size m ->
  GameMap.check_collision_with_rect (GameMap.with_map_data m d')
    (Rect.mk (GameMap.tile_size m * 2 - size / 2)
             (GameMap.height m * GameMap.tile_size m
              - GameMap.tile_size m * 2 - size / 2)
             size size) = Some false.
Proof.
  intros Hts Hw Hh Hok Hsize.
  apply any_impassable_clear. intros c Hc.
  assert (Hhalf : 2 * (size / 2) <= size < 2 * (size / 2) + 2).
  { pose proof (Z.mul_div_le size 2 ltac:(lia)).
    pose proof (Z.mul_succ_div_gt size 2 ltac:(lia)). lia. }
  revert Hhalf Hc. generalize (size / 2). intros half Hhalf Hc.
  unfold GameMap.corners, Rect.right, Rect.bottom in Hc. simpl in Hc.
  repeat (apply elem_of_cons in Hc as [-> | Hc]);
    try (by apply elem_of_nil in Hc);
    simpl; apply (start_zone_passable m d' _ _ Hts Hw Hh Hok); nia.
Qed.

Lemma generated_start (cfg : Config) (m : GameMap.t) (wd : World) (size : Z) :
  fits cfg -> map_of cfg m -> 0 <= size <= 2 * TILE_SIZE cfg ->
  ∃ m' wd',
    GameMap.generate_map m wd = Some (m', wd') ∧
    map_of cfg m' ∧
    GameMap.check_collision_with_rect m'
      (Rect.mk (TILE_SIZE cfg * 2 - size / 2)
               (SCREEN_HEIGHT cfg - TILE_SIZE cfg * 2 - size / 2)
               size size) = Some false.
Proof.
  intros (Hts & Hsh & Hw & Hh & _) (Hmw & Hmh & Hmt & Hgrid) Hsize.
  rewrite <- Hmw, <- Hmh in Hgrid.
  destruct (generate_map_cells m wd Hgrid) as (d' & wd' & Hrun & Hok);
    [lia..|].
  exists (GameMap.with_map_data m d'), wd'. split; [done|]. split.
  - unfold map_of. simpl.
    split; [done|]. split; [done|]. split; [done|].
    rewrite <- Hmw, <- Hmh. apply Hok.
  - rewrite Hsh, <- Hmh, <- Hmt.
    apply start_square_free; (done || lia).
Qed.

Lemma init_next_level_run (cfg : Config) (g : Game.t) (w : World) :
  fits cfg -> map_of cfg (Game.game_map g) ->
  0 <= Tank.size (PlayerTank.base (Game.player_tank g)) <= 2 * TILE_SIZE cfg ->
  ∃ g' w',
    Game.init_next_level cfg g w = Some (g', w') ∧
    Game.game_state g' = Game.game_state g ∧
    Game.score g' = Game.score g ∧
    Game.level g' = Game.level g ∧
    Game.max_enemies_per_level g' = Game.max_enemies_per_level g ∧
    Game.enemy_spawn_positions g' = Game.enemy_spawn_positions g ∧
    PlayerTank.lives (Game.player_tank g') = PlayerTank.lives (Game.player_tank g) ∧
    PlayerTank.invulnerable_time (Game.player_tank g')
      = PlayerTank.invulnerable_time (Game.player_tank g) ∧
    fresh_level cfg g'.
Proof.
  intros Hfits Hmap Hsize. unfold Game.init_next_level.
  destruct (generated_start cfg (Game.game_map g) w _ Hfits Hmap Hsize)
    as (m' & w1 & Hgen & Hmap' & Hfree).
  rewrite (bind_run _ _ _ _ _ Hgen). cbv zeta.
  match goal with
  | |- context [Game.spawn_initial_enemies cfg ?g1] =>
      destruct (spawn_initial_enemies_run cfg g1 w1)
        as (new & w2 & Hspawn & Hpos & Halive)
  end.
  rewrite (bind_run _ _ _ _ _ Hspawn).
  unfold bind, get_ticks, ret.
  do 2 eexists. split; [reflexivity|]. simpl.
  repeat (split; [done|]).
  unfold fresh_level. simpl. repeat (split; [done|]). exact Hfree.
Qed.

Lemma blank_map_of (cfg : Config) :
  0 <= MAP_WIDTH cfg -> 0 <= MAP_HEIGHT cfg -> map_of cfg (GameMap.blank cfg).
Proof.
  intros Hw Hh. repeat split; try done; simpl.
  - rewrite length_replicate. lia.
  - apply Forall_replicate. rewrite length_replicate. lia.
Qed.

Lemma init_game_run (cfg : Config) (g : Game.t) (w : World) :
  fits cfg ->
  ∃ g' w',
    Game.init_game cfg g w = Some (g', w') ∧
    Game.game_state g' = Game.game_state g ∧
    Game.score g' = Game.score g ∧
    Game.level g' = Game.level g ∧
    Game.max_enemies_per_level g' = Game.max_enemies_per_level g ∧
    Game.enemy_spawn_positions g' = Game.enemy_spawn_positions g ∧
    Game.enemy_spawn_timer g' = 0 ∧
    Game.player_tank g' =
      PlayerTank.init cfg (TILE_SIZE cfg * 2)
        (SCREEN_HEIGHT cfg - TILE_SIZE cfg * 2) (PLAYER_LIVES cfg) ∧
    fresh_level cfg g'.
Proof.
  intros Hfits. unfold Game.init_game, GameMap.init.
  assert (Hblank : map_of cfg (GameMap.blank cfg))
    by (destruct Hfits as (_ & _ & ? & ? & _); apply blank_map_of; lia).
  destruct (generated_start cfg (GameMap.blank cfg) w (TANK_SIZE cfg)
              Hfits Hblank) as (m' & w1 & Hgen & Hmap' & Hfree);
    [apply Hfits|].
  rewrite (bind_run _ _ _ _ _ Hgen). cbv zeta.
  match goal with
  | |- context [Game.spawn_initial_enemies cfg ?g1] =>
      destruct (spawn_initial_enemies_run cfg g1 w1)
        as (new & w2 & Hspawn & Hpos & Halive)
  end.
  rewrite (bind_run _ _ _ _ _ Hspawn).
  do 2 eexists. split; [reflexivity|]. simpl.
  repeat (split; [done|]).
  unfold fresh_level. simpl. repeat (split; [done|]). exact Hfree.
Qed.

(** X11.  [check_game_over].  A player that is dead with no life left ends the
    game, whatever else holds, and nothing but the state changes.
    Otherwise, when no enemy is left and the kills have reached the quota,
    level and quota go up by one: past level 5 the state becomes victory
    and nothing else changes; up to level 5 the next level is set up with
    a regenerated map, cleared bullets and counters, the first
    [min 3 quota] enemies on their anchors, and the player alive at its
    start anchor, facing up, on free ground, with its lives and its
    invulnerability untouched. *)
Theorem check_game_over_spec (cfg : Config) (g : Game.t) (w : World) :
  (Tank.alive (PlayerTank.base (Game.player_tank g)) = false ->
   PlayerTank.lives (Game.player_tank g) <= 0 ->
   Game.check_game_over cfg g w
     = Some (Game.with_game_state g "game_over", w)) ∧
  (Tank.alive (PlayerTank.base (Game.player_tank g)) = true ∨
   0 < PlayerTank.lives (Game.player_tank g) ->
   Game.enemy_tanks g = [] ->
   Game.max_enemies_per_level g <= Game.enemies_destroyed g ->
   (5 <= Game.level g ->
    Game.check_game_over cfg g w
      = Some (Game.with_game_state
                (Game.with_max_enemies_per_level
                   (Game.with_level g (Game.level g + 1))
                   (Game.max_enemies_per_level g + 1))
                "victory", w)) ∧
   (Game.level g < 5 ->
    fits cfg -> map_of cfg (Game.game_map g) ->
    0 <= Tank.size (PlayerTank.base (Game.player_tank g))
      <= 2 * TILE_SIZE cfg ->
    ∃ g' w',
      Game.check_game_over cfg g w = Some (g', w') ∧
      Game.game_state g' = Game.game_state g ∧
      Game.score g' = Game.score g ∧
      Game.level g' = Game.level g + 1 ∧
      Game.max_enemies_per_level g' = Game.max_enemies_per_level g + 1 ∧
      Game.enemy_spawn_positions g' = Game.enemy_spawn_positions g ∧
      PlayerTank.lives (Game.player_tank g')
        = PlayerTank.lives (Game.player_tank g) ∧
      PlayerTank.invulnerable_time (Game.player_tank g')
        = PlayerTank.invulnerable_time (Game.player_tank g) ∧
      fresh_level cfg g')) ∧
  (Tank.alive (PlayerTank.base (Game.player_tank g)) = true ∨
   0 < PlayerTank.lives (Game.player_tank g) ->
   Game.enemy_tanks g ≠ [] ∨
   Game.enemies_destroyed g < Game.max_enemies_per_level g ->
   Game.check_game_over cfg g w = Some (g, w)).
Proof.
  unfold Game.check_game_over.
  split; [|split].
  - intros -> Hlives. apply Z.leb_le in Hlives. by rewrite Hlives.
  - intros Hplay Hnone Hquota.
    assert (Hfirst : negb (Tank.alive (PlayerTank.base (Game.player_tank g)))
                     && (PlayerTank.lives (Game.player_tank g) <=? 0) = false).
    { destruct Hplay as [-> | Hl]; [done|].
      apply Z.leb_gt in Hl. rewrite Hl. apply andb_false_r. }
    rewrite Hfirst, Hnone. apply Z.leb_le in Hquota. rewrite Hquota.
    cbn [length Z.of_nat Z.eqb andb Game.level Game.with_level
         Game.with_max_enemies_per_level].
    split.
    + intros Hlast.
      assert (Hgt : (5 <? Game.level g + 1) = true) by (apply Z.ltb_lt; lia).
      by rewrite Hgt.
    + intros Hmore Hfits Hmap Hsize.
      assert (Hle : (5 <? Game.level g + 1) = false) by (apply Z.ltb_ge; lia).
      rewrite Hle.
      match goal with
      | |- context [Game.init_next_level cfg ?g1] =>
          destruct (init_next_level_run cfg g1 w Hfits Hmap Hsize)
            as (g' & w' & Hrun & Hst & Hsc & Hlv & Hq & Hps & Hli & Hinv & Hfresh)
      end.
      exists g', w'. split; [done|].
      simpl in Hst, Hsc, Hlv, Hq, Hps, Hli, Hinv.
      repeat (split; [assumption|]). exact Hfresh.
  - intros Hplay Hbusy.
    assert (Hfirst : negb (Tank.alive (PlayerTank.base (Game.player_tank g)))
                     && (PlayerTank.lives (Game.player_tank g) <=? 0) = false).
    { destruct Hplay as [-> | Hl]; [done|].
      apply Z.leb_gt in Hl. rewrite Hl. apply andb_false_r. }
    rewrite Hfirst.
    destruct Hbusy as [Hsome | Hfew].
    + destruct (Game.enemy_tanks g); [done|]. done.
    + apply Z.leb_gt in Hfew. rewrite Hfew. by rewrite andb_false_r.
Qed.

Lemma demo_config_fits : fits demo_config.
Proof. unfold fits. simpl. lia. Qed.

Lemma demo_arena_map_of : map_of demo_config demo_arena.
Proof.
  split; [reflexivity|]. split; [reflexivity|]. split; [reflexivity|].
  split; [reflexivity|]. vm_compute. repeat constructor.
Qed.

Lemma check_game_over_spec_witness :
  Game.check_game_over demo_config (demo_game demo_dead_player [] []) demo_world
    = Some (Game.with_game_state (demo_game demo_dead_player [] []) "game_over",
            demo_world) ∧
  ∃ g' w',
    Game.check_game_over demo_config demo_level_done demo_world = Some (g', w') ∧
    Game.level g' = 2 ∧ Game.max_enemies_per_level g' = 4 ∧
    length (Game.enemy_tanks g') = 3%nat ∧
    GameMap.check_collision_with_rect (Game.game_map g')
      (Tank.get_rect (PlayerTank.base (Game.player_tank g'))) = Some false.
Proof.
  split.
  - apply (check_game_over_spec demo_config (demo_game demo_dead_player [] [])
             demo_world); [reflexivity | vm_compute; discriminate].
  - destruct (check_game_over_spec demo_config demo_level_done demo_world)
      as (_ & Hdone & _).
    destruct Hdone as [_ Hnext];
      [left; reflexivity | reflexivity | vm_compute; discriminate |].
    destruct Hnext
      as (g' & w' & Hrun & _ & _ & Hlevel & Hquota & Hps & _ & _ & Hfresh).
    + reflexivity.
    + apply demo_config_fits.
    + apply demo_arena_map_of.
    + vm_compute. split; discriminate.
    + destruct Hfresh as (_ & _ & Hpos & _ & _ & _ & _ & _ & _ & Hfree).
      exists g', w'. split; [done|]. split; [exact Hlevel|].
      split; [exact Hquota|]. split; [|exact Hfree].
      rewrite <- (length_map enemy_pos), Hpos, Hquota, Hps. reflexivity.
Defined.

(** X12.  [restart_game] with a fitting configuration, from any game: the state
    is playing, score 0, level 1, the quota [ENEMY_COUNT], and the level is
    set up afresh with a new map and a newly built player with
    [PLAYER_LIVES] lives (nothing of the old player, enemies or bullets
    remains). *)
Theorem restart_game_spec (cfg : Config) (g : Game.t) (w : World) :
  fits cfg ->
  ∃ g' w',
    Game.restart_game cfg g w = Some (g', w') ∧
    Game.game_state g' = "playing" ∧
    Game.score g' = 0 ∧
    Game.level g' = 1 ∧
    Game.max_enemies_per_level g' = ENEMY_COUNT cfg ∧
    Game.enemy_spawn_timer g' = 0 ∧
    Game.enemy_spawn_positions g' = Game.enemy_spawn_positions g ∧
    Game.player_tank g' =
      PlayerTank.init cfg (TILE_SIZE cfg * 2)
        (SCREEN_HEIGHT cfg - TILE_SIZE cfg * 2) (PLAYER_LIVES cfg) ∧
    fresh_level cfg g'.
Proof.
  intros Hfits. unfold Game.restart_game.
  match goal with
  | |- context [Game.init_game cfg ?g1] =>
      destruct (init_game_run cfg g1 w Hfits)
        as (g' & w' & Hrun & Hst & Hsc & Hlv & Hq & Hpos & Htimer & Hplayer
            & Hfresh)
  end.
  exists g', w'. split; [done|].
  simpl in Hst, Hsc, Hlv, Hq, Hpos.
  repeat (split; [assumption|]). exact Hfresh.
Qed.

Lemma restart_game_spec_witness :
  ∃ g' w',
    Game.restart_game demo_config
      (Game.with_game_state (demo_game demo_dead_player [] []) "game_over")
      demo_world = Some (g', w') ∧
    Game.game_state g' = "playing" ∧
    Game.player_tank g' = demo_start_player ∧
    length (Game.enemy_tanks g') = 3%nat.
Proof.
  destruct (restart_game_spec demo_config
              (Game.with_game_state (demo_game demo_dead_player [] []) "game_over")
              demo_world demo_config_fits)
    as (g' & w' & Hrun & Hst & _ & _ & Hq & _ & Hpos & Hplayer & Hfresh).
  destruct Hfresh as (_ & _ & Hbatch & _).
  exists g', w'. split; [done|]. split; [done|]. split; [exact Hplayer|].
  rewrite <- (length_map enemy_pos), Hbatch, Hq, Hpos. reflexivity.
Defined.

(** ** Events *)

Lemma with_game_state_same (g : Game.t) :
  Game.with_game_state g (Game.game_state g) = g.
Proof. by destruct g. Qed.

(** X13.  While the game is playing or paused, a batch of events can only flip
    the pause: the game after the batch is the game before it when P was
    pressed an even number of times (before any quit request), and the
    game with the other of the two states otherwise; R is ignored, the
    clock and the random source are not consulted, and the answer is
    [False] exactly when the batch holds a quit request or Escape. *)
Theorem handle_events_pause (cfg : Config) (events : list Event) (g : Game.t)
    (w : World) :
  Game.game_state g = "playing" ∨ Game.game_state g = "paused" ->
  Game.handle_events cfg events g w =
  Some ((keeps_running events,
         if Nat.even (pauses events) then g
         else Game.with_game_state g (toggled (Game.game_state g))),
        w).
Proof.
  revert g. induction events as [|ev rest IH]; intros g Hst; [done|].
  destruct ev as [|[| | |]|];
    cbn [Game.handle_events pauses keeps_running];
    try done; try (by apply IH).
  - assert (Hno : bool_decide (Game.game_state g = "game_over")
                  || bool_decide (Game.game_state g = "victory") = false).
    { destruct Hst as [-> | ->]; reflexivity. }
    rewrite Hno. by apply IH.
  - rewrite Nat.even_succ, <- Nat.negb_even.
    destruct Hst as [Hplay | Hpause].
    + rewrite Hplay. simpl. rewrite IH by (simpl; by right). simpl.
      destruct (Nat.even (pauses rest)); simpl; [done|].
      do 3 f_equal. destruct g; simpl in *; subst; reflexivity.
    + rewrite Hpause. simpl. rewrite IH by (simpl; by left). simpl.
      destruct (Nat.even (pauses rest)); simpl; [done|].
      do 3 f_equal. destruct g; simpl in *; subst; reflexivity.
Qed.

Lemma handle_events_pause_witness :
  Game.handle_events demo_config
    [KEYDOWN K_p; KEYDOWN K_r; KEYDOWN K_p; KEYDOWN K_p; QUIT; KEYDOWN K_p]
    demo_clash demo_world
  = Some ((false, Game.with_game_state demo_clash "paused"), demo_world).
Proof.
  apply (handle_events_pause demo_config
           [KEYDOWN K_p; KEYDOWN K_r; KEYDOWN K_p; KEYDOWN K_p; QUIT; KEYDOWN K_p]
           demo_clash demo_world).
  by left.
Defined.

(** ** The sightline of an enemy *)

Lemma py_range_elem (start stop step : Z) (l : list Z) (v : Z) :
  py_range start stop step = Some l ->
  v ∈ l <->
  ∃ k, 0 <= k ∧ v = start + k * step ∧
       (if 0 <? step then start + k * step < stop
        else stop < start + k * step).
Proof.
  unfold py_range. destruct (Z.eqb_spec step 0) as [|Hstep]; [done|].
  intros [= <-]. rewrite list_elem_of_In, in_map_iff.
  setoid_rewrite <- list_elem_of_In. setoid_rewrite elem_of_seqZ.
  destruct (Z.ltb_spec 0 step) as [Hpos | Hneg].
  - split.
    + intros (k & <- & Hk0 & Hk). exists k. split; [lia|]. split; [done|].
      assert (Hle : k + 1 <= (stop - start + step - 1) / step) by lia.
      assert (step * (k + 1) <= stop - start + step - 1); [|lia].
      etrans; [|apply (Z.mul_div_le _ step); lia].
      apply Z.mul_le_mono_nonneg_l; lia.
    + intros (k & Hk0 & -> & Hk). exists k. split; [done|]. split; [lia|].
      assert (k + 1 <= (stop - start + step - 1) / step); [|lia].
      apply Z.div_le_lower_bound; lia.
  - split.
    + intros (k & <- & Hk0 & Hk). exists k. split; [lia|]. split; [done|].
      assert (Hle : k + 1 <= (start - stop - step - 1) / (- step)) by lia.
      assert (- step * (k + 1) <= start - stop - step - 1); [|lia].
      etrans; [|apply (Z.mul_div_le _ (- step)); lia].
      apply Z.mul_le_mono_nonneg_l; lia.
    + intros (k & Hk0 & -> & Hk). exists k. split; [done|]. split; [lia|].
      assert (k + 1 <= (start - stop - step - 1) / (- step)); [|lia].
      apply Z.div_le_lower_bound; lia.
Qed.

Lemma line_clear_true (f : Z -> option bool) (pts : list Z) :
  EnemyTank.line_clear f pts = Some true <-> ∀ v, v ∈ pts -> f v = Some true.
Proof.
  induction pts as [|p pts IH]; simpl.
  - split; [|done]. intros _ v Hv. by apply elem_of_nil in Hv.
  - destruct (f p) as [[|]|] eqn:Hp; simpl.
    + rewrite IH. split.
      * intros Hall v Hv. apply elem_of_cons in Hv as [-> | Hv]; auto.
      * intros Hall v Hv. apply Hall. by apply list_elem_of_further.
    + split; [done|]. intros Hall.
      specialize (Hall p (list_elem_of_here _ _)). congruence.
    + split; [done|]. intros Hall.
      specialize (Hall p (list_elem_of_here _ _)). congruence.
Qed.

Lemma line_clear_total (f : Z -> option bool) (pts : list Z) :
  (∀ v, ∃ b, f v = Some b) -> ∃ b, EnemyTank.line_clear f pts = Some b.
Proof.
  intros Hf. induction pts as [|p pts IH]; simpl; [by eexists|].
  destruct (Hf p) as [[|] ->]; simpl; [done | by eexists].
Qed.

Lemma sightline (f : Z -> option bool) (a b : Z) :
  ∃ l, py_range a b ((if 0 <? b - a then 1 else -1) * 20) = Some l ∧
       (EnemyTank.line_clear f l = Some true <->
        ∀ k, sampled a b k -> f (sample a b k) = Some true).
Proof.
  destruct (py_range a b ((if 0 <? b - a then 1 else -1) * 20)) as [l|] eqn:Hl.
  2: { unfold py_range in Hl. by destruct (0 <? b - a). }
  exists l. split; [done|]. rewrite line_clear_true.
  unfold sampled, sample. split.
  - intros Hall k [Hk0 Hk]. apply Hall.
    apply (py_range_elem _ _ _ _ _ Hl). exists k. split; [done|].
    destruct (Z.ltb_spec 0 (b - a)); simpl; lia.
  - intros Hall v Hv. apply (py_range_elem _ _ _ _ _ Hl) in Hv.
    destruct Hv as (k & Hk0 & -> & Hk).
    specialize (Hall k). revert Hall Hk.
    destruct (Z.ltb_spec 0 (b - a)); simpl; intros Hall Hk.
    + replace (a + k * (1 * 20)) with (a + 20 * k) by lia. apply Hall. lia.
    + replace (a + k * (-1 * 20)) with (a - 20 * k) by lia. apply Hall. lia.
Qed.


(** X14.  [can_see_player] on a well-formed map.  It never fails.  It answers
    [True] exactly when the player is alive and either the two are less
    than 10 pixels apart in [x] and every point sampled on the column of
    the enemy is passable, or they are at least 10 pixels apart in [x],
    less than 10 apart in [y], and every point sampled on the row of the
    enemy is passable.  The points are taken every 20 pixels from the
    enemy (included) towards the player (excluded), on the enemy's own
    column or row, not the player's; when the coordinates are equal no
    point is sampled. *)
Theorem can_see_player_spec (e : EnemyTank.t) (p : PlayerTank.t)
    (m : GameMap.t) :
  well_formed m ->
  let ex := Tank.x (EnemyTank.base e) in
  let ey := Tank.y (EnemyTank.base e) in
  let px := Tank.x (PlayerTank.base p) in
  let py := Tank.y (PlayerTank.base p) in
  (∃ b, EnemyTank.can_see_player e p m = Some b) ∧
  (EnemyTank.can_see_player e p m = Some true <->
   Tank.alive (PlayerTank.base p) = true ∧
   ((Z.abs (px - ex) < 10 ∧
     ∀ k, sampled ey py k ->
          GameMap.is_passable m ex (sample ey py k) = Some true) ∨
    (10 <= Z.abs (px - ex) ∧ Z.abs (py - ey) < 10 ∧
     ∀ k, sampled ex px k ->
          GameMap.is_passable m (sample ex px k) ey = Some true))).
Proof.
  intros Hwf ex ey px py. unfold EnemyTank.can_see_player.
  fold ex ey px py.
  destruct (Tank.alive (PlayerTank.base p)); cbn [negb].
  2: { split; [by eexists|]. split; [done | by intros [? _]]. }
  cbv zeta.
  destruct (Z.ltb_spec (Z.abs (px - ex)) 10) as [Hcol | Hfar].
  - destruct (sightline (fun y => GameMap.is_passable m ex y) ey py)
      as (l & -> & Hclear).
    cbn [mbind option_bind]. split.
    + apply line_clear_total. intros v. by apply is_passable_total.
    + rewrite Hclear. split.
      * intros Hall. split; [done|]. by left.
      * intros [_ [[_ Hall] | [Hge _]]]; [done | lia].
  - destruct (Z.ltb_spec (Z.abs (py - ey)) 10) as [Hrow | Hfar'].
    + destruct (sightline (fun x => GameMap.is_passable m x ey) ex px)
        as (l & -> & Hclear).
      cbn [mbind option_bind]. split.
      * apply line_clear_total. intros v. by apply is_passable_total.
      * rewrite Hclear. split.
        -- intros Hall. split; [done|]. by right.
        -- intros [_ [[Hlt _] | (_ & _ & Hall)]]; [lia | done].
    + split; [by eexists|]. split; [done|].
      intros [_ [[Hlt _] | (_ & Hlt & _)]]; lia.
Qed.

Lemma can_see_player_spec_witness :
  EnemyTank.can_see_player demo_hunter demo_target demo_arena = Some true ∧
  GameMap.is_passable demo_arena 400 360 = Some true.
Proof.
  assert (Hwf : well_formed demo_arena).
  { split; [done|]. split; [reflexivity|]. vm_compute. repeat constructor. }
  destruct (can_see_player_spec demo_hunter demo_target demo_arena Hwf)
    as [_ Hsee].
  assert (Hrun : EnemyTank.can_see_player demo_hunter demo_target demo_arena
                 = Some true) by reflexivity.
  split; [exact Hrun|].
  apply Hsee in Hrun as [_ [[_ Hcol] | [Hfar _]]].
  - apply (Hcol 3). split; [lia|]. vm_compute. reflexivity.
  - vm_compute in Hfar. by destruct Hfar.
Defined.

(** ** The decision of an enemy *)





(** ** One update of an enemy *)










(** X17.  The direction towards a living player, with the direction vectors of
    screen coordinates: of the four axis directions it is one that makes
    the most headway, its progress along the offset to the player being the
    larger of the two distances.  For a dead player it is the direction
    the enemy faces. *)
Theorem direction_to_player_progress (cfg : Config) (e : EnemyTank.t)
    (p : PlayerTank.t) :
  DIRECTIONS cfg = demo_directions ->
  let dx := Tank.x (PlayerTank.base p) - Tank.x (EnemyTank.base e) in
  let dy := Tank.y (PlayerTank.base p) - Tank.y (EnemyTank.base e) in
  let v := DIRECTIONS cfg (EnemyTank.get_direction_to_player e p) in
  (Tank.alive (PlayerTank.base p) = true ->
   v.1 * dx + v.2 * dy = Z.max (Z.abs dx) (Z.abs dy)) ∧
  (Tank.alive (PlayerTank.base p) = false ->
   EnemyTank.get_direction_to_player e p = Tank.direction (EnemyTank.base e)).
Proof.
  intros Hdirs dx dy v. subst v. rewrite Hdirs.
  unfold EnemyTank.get_direction_to_player. fold dx dy. split.
  - intros ->. cbn [negb].
    destruct (Z.ltb_spec (Z.abs dy) (Z.abs dx)).
    + destruct (Z.ltb_spec 0 dx); simpl; lia.
    + destruct (Z.ltb_spec 0 dy); simpl; lia.
  - by intros ->.
Qed.

Lemma direction_to_player_progress_witness :
  EnemyTank.get_direction_to_player demo_hunter demo_target = DOWN.
Proof.
  destruct (direction_to_player_progress demo_config demo_hunter demo_target
              eq_refl) as [Hlive _].
  specialize (Hlive eq_refl).
  destruct (EnemyTank.get_direction_to_player demo_hunter demo_target);
    vm_compute in Hlive; (done || discriminate).
Defined.

(** ** One frame of the game *)





Lemma wrecks_cons (e : EnemyTank.t) (es : list EnemyTank.t) :
  wrecks (e :: es) =
  (if Tank.alive (EnemyTank.base e) then 0 else 1) + wrecks es.
Proof.
  unfold wrecks. destruct (Tank.alive (EnemyTank.base e)) eqn:Halive.
  - rewrite filter_cons_False by (rewrite Halive; done). lia.
  - rewrite filter_cons_True by done. simpl. lia.
Qed.






(** ** The collision pass as a whole *)

Lemma worn_trans (e1 e2 e3 : EnemyTank.t) :
  worn e1 e2 -> worn e2 e3 -> worn e1 e3.
Proof. intros [-> | ->] [-> | ->]; (by left) || (by right). Qed.

Lemma spent_trans (b1 b2 b3 : Bullet.t) :
  spent b1 b2 -> spent b2 b3 -> spent b1 b3.
Proof. intros [-> | ->] [-> | ->]; (by left) || (by right). Qed.

Lemma Forall2_worn_refl (es : list EnemyTank.t) : Forall2 worn es es.
Proof. apply Forall_Forall2_diag, Forall_forall. intros e _. by left. Qed.

Lemma Forall2_spent_refl (bs : list Bullet.t) : Forall2 spent bs bs.
Proof. apply Forall_Forall2_diag, Forall_forall. intros b _. by left. Qed.

Lemma Forall2_spent_insert (bs : list Bullet.t) (i : nat) (b b' : Bullet.t) :
  bs !! i = Some b -> spent b b' -> Forall2 spent bs (<[i := b']> bs).
Proof.
  intros Hb Hs. rewrite <- (list_insert_id bs i b Hb) at 1.
  apply Forall2_insert; [apply Forall2_spent_refl | done].
Qed.

Lemma same_make_refl (p : PlayerTank.t) : same_make p p.
Proof. by repeat split. Qed.

Lemma same_make_trans (p1 p2 p3 : PlayerTank.t) :
  same_make p1 p2 -> same_make p2 p3 -> same_make p1 p3.
Proof.
  unfold same_make. intros H12 H23.
  destruct H12 as (? & ? & ? & ? & ? & ? & ? & ? & ? & ? & ?).
  destruct H23 as (? & ? & ? & ? & ? & ? & ? & ? & ? & ? & ?).
  repeat split; congruence.
Qed.

Lemma map_worn_refl (m : GameMap.t) : well_formed m -> map_worn m m.
Proof.
  intros [_ Hshape]. split; [done|]. split; [done|]. split; [done|].
  split; [done|]. intros x y. by left.
Qed.

Lemma map_worn_trans (m1 m2 m3 : GameMap.t) :
  map_worn m1 m2 -> map_worn m2 m3 -> map_worn m1 m3.
Proof.
  intros (Hw & Hh & Ht & Hs & Hcells) (Hw' & Hh' & Ht' & Hs' & Hcells').
  rewrite Hw, Hh in Hs'.
  split; [congruence|]. split; [congruence|]. split; [congruence|].
  split; [done|]. intros x y.
  destruct (Hcells x y) as [H12 | [H1 H2]],
           (Hcells' x y) as [H23 | [H2' H3]].
  - left. congruence.
  - right. split; congruence.
  - right. split; congruence.
  - congruence.
Qed.

Lemma map_worn_well_formed (m m' : GameMap.t) :
  well_formed m -> map_worn m m' -> well_formed m'.
Proof.
  intros [Hts _] (Hw & Hh & Ht & Hs & _). split; [congruence|].
  by rewrite Hw, Hh.
Qed.

Lemma get_tile_same_cell (m : GameMap.t) (x y x' y' : Z) :
  GameMap.tile_size m ≠ 0 ->
  (x' / GameMap.tile_size m, y' / GameMap.tile_size m)
    = (x / GameMap.tile_size m, y / GameMap.tile_size m) ->
  GameMap.get_tile_at_position m x' y' = GameMap.get_tile_at_position m x y.
Proof.
  intros Hts [= Hx Hy]. rewrite !get_tile_unfold by done. by rewrite Hx, Hy.
Qed.

(** [destroy_tile] wears the map. *)
Lemma destroy_tile_worn (m : GameMap.t) (x y : Z) :
  well_formed m ->
  ∃ b m', GameMap.destroy_tile m x y = Some (b, m') ∧ map_worn m m'.
Proof.
  intros Hwf.
  destruct (decide (GameMap.get_tile_at_position m x y = Some BRICK_WALL))
    as [Hbrick | Hother].
  - destruct (destroy_tile_brick m x y Hwf Hbrick)
      as (m' & Hrun & Hwf' & Hempty & Hframe).
    exists true, m'. split; [done|].
    destruct Hwf as [Hts Hshape].
    pose proof Hrun as Hrun'.
    rewrite destroy_tile_unfold in Hrun' by done.
    destruct (grid_test m _ _); [|done].
    destruct (py_getitem2 _ _ _) as [cur|]; [|done].
    cbn [mbind option_bind] in Hrun'.
    destruct (bool_decide (cur = BRICK_WALL)); [|done].
    destruct (py_setitem2 _ _ _ _) as [d|] eqn:Hset; [|done].
    injection Hrun' as <-.
    split; [done|]. split; [done|]. split; [done|].
    split; [apply Hwf'|].
    intros x' y'.
    destruct (decide ((x' / GameMap.tile_size m, y' / GameMap.tile_size m)
                      = (x / GameMap.tile_size m, y / GameMap.tile_size m)))
      as [Hsame | Hdiff].
    + right. split.
      * by rewrite (get_tile_same_cell m x y x' y').
      * rewrite (get_tile_same_cell (GameMap.with_map_data m d) x y x' y');
          done.
    + left. by apply Hframe.
  - exists false, m. split; [by apply destroy_tile_other|].
    by apply map_worn_refl.
Qed.

Lemma tank_hit_spent (s : Tank.t) (b : Bullet.t) :
  spent b (Tank.check_collision_with_bullet s b).2.
Proof.
  unfold Tank.check_collision_with_bullet, Bullet.check_collision_with_rect.
  destruct (negb (Tank.alive s) || negb (Bullet.active b)); [by left|].
  destruct (negb (Bullet.active b)); [by left|].
  destruct (Rect.colliderect _ _); [by right | by left].
Qed.

Lemma hit_first_enemy_worn (es : list EnemyTank.t) :
  ∀ b, Forall2 worn es (Game.hit_first_enemy es b).1 ∧
       spent b (Game.hit_first_enemy es b).2.
Proof.
  induction es as [|e es IH]; intros b; simpl.
  { split; [constructor | by left]. }
  destruct (Tank.alive (EnemyTank.base e)).
  - pose proof (tank_hit_spent (EnemyTank.base e) b) as Hb1.
    destruct (Tank.check_collision_with_bullet (EnemyTank.base e) b)
      as [hit b1]. simpl in Hb1.
    destruct hit; simpl.
    + split.
      * constructor; [by right | apply Forall2_worn_refl].
      * apply (spent_trans _ b1); [done | by right].
    + destruct (IH b1) as [Hes Hb2].
      destruct (Game.hit_first_enemy es b1) as [es' b2]. simpl in *.
      split; [constructor; [by left | done]|].
      by apply (spent_trans _ b1).
  - destruct (IH b) as [Hes Hb2].
    destruct (Game.hit_first_enemy es b) as [es' b2]. simpl in *.
    split; [constructor; [by left | done] | done].
Qed.

Lemma bullet_vs_bullets_spent (i : nat) (bs : list Bullet.t) :
  Forall2 spent bs (Game.bullet_vs_bullets i bs).
Proof.
  unfold Game.bullet_vs_bullets.
  destruct (bs !! i) as [b|] eqn:Hb; [|apply Forall2_spent_refl].
  destruct (Game.find_opposing b i 0 bs) as [j|]; [|apply Forall2_spent_refl].
  destruct (bs !! j) as [b'|] eqn:Hb'; [|apply Forall2_spent_refl].
  rewrite <- (list_insert_id bs i b Hb) at 1.
  rewrite <- (list_insert_id (<[i:=b]> bs) j b') at 1.
  - apply Forall2_insert; [|by right].
    apply Forall2_insert; [apply Forall2_spent_refl | by right].
  - by rewrite list_insert_id.
Qed.

Lemma player_take_damage_run (p : PlayerTank.t) (w : World) :
  ∃ p' w', PlayerTank.take_damage p w = Some (p', w') ∧
           same_make p' p ∧ PlayerTank.lives p' <= PlayerTank.lives p.
Proof.
  destruct (PlayerTank.take_damage p w) as [[p' w']|] eqn:Hrun.
  - exists p', w'. split; [done|].
    split; [by apply (take_damage_same_make p p' w w')|].
    revert Hrun.
    unfold PlayerTank.take_damage, PlayerTank.respawn, bind, get_ticks, ret.
    destruct (now w <? PlayerTank.invulnerable_time p).
    + intros [= <- _]. lia.
    + destruct (0 <? PlayerTank.lives _); intros [= <- _]; simpl; lia.
  - revert Hrun.
    unfold PlayerTank.take_damage, PlayerTank.respawn, bind, get_ticks, ret.
    destruct (now w <? PlayerTank.invulnerable_time p); [done|].
    by destruct (0 <? PlayerTank.lives _).
Qed.

Lemma collided_refl (g : Game.t) :
  well_formed (Game.game_map g) -> collided g g.
Proof.
  intros Hwf.
  exists (Game.game_map g), (Game.player_tank g), (Game.enemy_tanks g),
    (Game.bullets g).
  split; [by destruct g|]. split; [by apply map_worn_refl|].
  split; [apply same_make_refl|]. split; [lia|].
  split; [apply Forall2_worn_refl | apply Forall2_spent_refl].
Qed.

Lemma collided_trans (g1 g2 g3 : Game.t) :
  collided g1 g2 -> collided g2 g3 -> collided g1 g3.
Proof.
  intros (m & p & es & bs & -> & Hm & Hp & Hl & Hes & Hbs)
         (m' & p' & es' & bs' & -> & Hm' & Hp' & Hl' & Hes' & Hbs').
  simpl in *.
  exists m', p', es', bs'. split; [done|].
  split; [by apply (map_worn_trans _ m)|].
  split; [by apply (same_make_trans _ p)|]. split; [lia|].
  split.
  - by apply (Forall2_trans worn worn worn _ es _ worn_trans).
  - by apply (Forall2_trans spent spent spent _ bs _ spent_trans).
Qed.

(** The turn of one bullet in the collision pass. *)
Lemma collide_bullet_run (i : nat) (g : Game.t) (w : World) :
  well_formed (Game.game_map g) ->
  ∃ g' w', Game.collide_bullet i g w = Some (g', w') ∧ collided g g'.
Proof.
  intros Hwf. unfold Game.collide_bullet.
  destruct (Game.bullets g !! i) as [bullet|] eqn:Hb.
  2: { exists g, w. split; [done | by apply collided_refl]. }
  destruct (Bullet.active bullet); cbn [negb].
  2: { exists g, w. split; [done | by apply collided_refl]. }
  destruct (any_impassable_total (Game.game_map g)
              (GameMap.corners (Bullet.get_rect bullet)) Hwf) as [on_map Hmap].
  assert (Hlift : lift (GameMap.check_collision_with_rect (Game.game_map g)
                          (Bullet.get_rect bullet)) w = Some (on_map, w))
    by (unfold lift, GameMap.check_collision_with_rect; by rewrite Hmap).
  rewrite (bind_run _ _ _ _ _ Hlift).
  destruct on_map.
  - destruct (get_tile_total (Game.game_map g) (Bullet.x bullet)
                (Bullet.y bullet) Hwf) as [tile Htile].
    unfold bind at 1, lift at 1, GameMap.can_destroy_tile.
    rewrite Htile. cbn [mbind option_bind].
    destruct (bool_decide (tile = BRICK_WALL)).
    + destruct (destroy_tile_worn (Game.game_map g) (Bullet.x bullet)
                  (Bullet.y bullet) Hwf) as (b & m' & Hrun & Hworn).
      unfold bind, lift. rewrite Hrun. simpl.
      eexists _, w. split; [reflexivity|].
      exists m', (Game.player_tank g), (Game.enemy_tanks g),
        (<[i := Bullet.destroy bullet]> (Game.bullets g)).
      split; [done|]. split; [done|].
      split; [apply same_make_refl|]. split; [lia|].
      split; [apply Forall2_worn_refl|].
      apply (Forall2_spent_insert _ _ bullet); [done | by right].
    + unfold bind, ret.
      eexists _, w. split; [reflexivity|].
      exists (Game.game_map g), (Game.player_tank g), (Game.enemy_tanks g),
        (<[i := Bullet.destroy bullet]> (Game.bullets g)).
      split; [done|]. split; [by apply map_worn_refl|].
      split; [apply same_make_refl|]. split; [lia|].
      split; [apply Forall2_worn_refl|].
      apply (Forall2_spent_insert _ _ bullet); [done | by right].
  - match goal with
    | |- context [let '(_, _) := ?c in _] =>
        assert (Hspent : spent bullet c.2);
        [|destruct c as [on_player bullet1]]
    end.
    { destruct (_ && _); [apply tank_hit_spent | by left]. }
    cbn [snd] in Hspent.
    destruct on_player.
    + unfold bind at 1, PlayerTank.is_invulnerable at 1, bind at 1,
        get_ticks at 1, ret at 1.
      destruct (now w <? _); cbn [negb].
      * unfold bind, ret. eexists _, _. split; [reflexivity|].
        exists (Game.game_map g), (Game.player_tank g), (Game.enemy_tanks g),
          (<[i := Bullet.destroy bullet1]> (Game.bullets g)).
        split; [done|]. split; [by apply map_worn_refl|].
        split; [apply same_make_refl|]. split; [lia|].
        split; [apply Forall2_worn_refl|].
        apply (Forall2_spent_insert _ _ bullet); [done|].
        apply (spent_trans _ bullet1); [done | by right].
      * destruct (player_take_damage_run (Game.player_tank g) (tick w))
          as (p' & w' & Hrun & Hmake & Hlives).
        rewrite (bind_run _ _ _ _ _ Hrun). unfold ret.
        eexists _, _. split; [reflexivity|].
        exists (Game.game_map g), p', (Game.enemy_tanks g),
          (<[i := Bullet.destroy bullet1]> (Game.bullets g)).
        split; [done|]. split; [by apply map_worn_refl|].
        split; [done|]. split; [done|].
        split; [apply Forall2_worn_refl|].
        apply (Forall2_spent_insert _ _ bullet); [done|].
        apply (spent_trans _ bullet1); [done | by right].
    + match goal with
      | |- context [let '(_, _) := ?c in _] =>
          assert (Hhit : Forall2 worn (Game.enemy_tanks g) c.1 ∧
                         spent bullet1 c.2);
          [|destruct c as [es bullet2]]
      end.
      { destruct (bool_decide _); [apply hit_first_enemy_worn|].
        split; [apply Forall2_worn_refl | by left]. }
      cbn [fst snd] in Hhit. destruct Hhit as [Hes Hb2].
      unfold ret. eexists _, _. split; [reflexivity|].
      exists (Game.game_map g), (Game.player_tank g), es,
        (Game.bullet_vs_bullets i (<[i := bullet2]> (Game.bullets g))).
      split; [done|]. split; [by apply map_worn_refl|].
      split; [apply same_make_refl|]. split; [lia|].
      split; [done|].
      apply (Forall2_trans spent spent spent _
               (<[i := bullet2]> (Game.bullets g)) _ spent_trans).
      * apply (Forall2_spent_insert _ _ bullet); [done|].
        by apply (spent_trans _ bullet1).
      * apply bullet_vs_bullets_spent.
Qed.

Lemma check_collisions_run (g : Game.t) (w : World) :
  well_formed (Game.game_map g) ->
  ∃ g' w', Game.check_collisions g w = Some (g', w') ∧ collided g g'.
Proof.
  intros Hwf. unfold Game.check_collisions.
  apply (for_range_preserve (fun g' => collided g g')).
  - intros i g1 w1 _ Hg1.
    destruct (collide_bullet_run (Z.to_nat i) g1 w1) as (g2 & w2 & Hrun & Hg2).
    + destruct Hg1 as (m & p & es & bs & -> & Hm & _). simpl.
      by apply (map_worn_well_formed (Game.game_map g)).
    + exists g2, w2. split; [done|]. by apply (collided_trans _ g1).
  - by apply collided_refl.
Qed.

Lemma worn_wrecks (es es' : list EnemyTank.t) :
  Forall2 worn es es' -> wrecks es <= wrecks es'.
Proof.
  induction 1 as [|e e' es es' Hworn _ IH]; [done|].
  rewrite !wrecks_cons.
  destruct Hworn as [-> | ->]; [lia|]. simpl.
  destruct (Tank.alive (EnemyTank.base e)); lia.
Qed.

(** X19.  [check_collisions] on a well-formed map, whatever the bullets meet: it
    never fails, and it only wears the game.  Bricks may turn to empty
    ground, enemies may be destroyed, bullets may be deactivated, the
    player may lose lives; no tile of another kind changes, no enemy comes
    back, no bullet is reactivated, no list changes its length, and state,
    score, level and the counters are not touched (a destroyed enemy is
    only counted by the next frame). *)
Theorem check_collisions_spec (g : Game.t) (w : World) :
  well_formed (Game.game_map g) ->
  ∃ g' w',
    Game.check_collisions g w = Some (g', w') ∧
    collided g g' ∧
    well_formed (Game.game_map g') ∧
    length (Game.enemy_tanks g') = length (Game.enemy_tanks g) ∧
    length (Game.bullets g') = length (Game.bullets g) ∧
    wrecks (Game.enemy_tanks g) <= wrecks (Game.enemy_tanks g').
Proof.
  intros Hwf.
  destruct (check_collisions_run g w Hwf) as (g' & w' & Hrun & Hworn).
  exists g', w'. split; [done|]. split; [done|].
  destruct Hworn as (m & p & es & bs & -> & Hm & _ & _ & Hes & Hbs). simpl.
  split; [by apply (map_worn_well_formed (Game.game_map g))|].
  split; [symmetry; by apply (Forall2_length worn)|].
  split; [symmetry; by apply (Forall2_length spent)|].
  by apply worn_wrecks.
Qed.

Lemma check_collisions_spec_witness :
  ∃ g' w',
    Game.check_collisions demo_clash demo_world = Some (g', w') ∧
    Game.score g' = 0 ∧
    length (Game.enemy_tanks g') = 1%nat ∧
    length (Game.bullets g') = 2%nat.
Proof.
  assert (Hwf : well_formed (Game.game_map demo_clash)).
  { split; [done|]. split; [reflexivity|]. vm_compute. repeat constructor. }
  destruct (check_collisions_spec demo_clash demo_world Hwf)
    as (g' & w' & Hrun & Hworn & _ & Hes & Hbs & _).
  exists g', w'. split; [done|].
  destruct Hworn as (m & p & es & bs & -> & _). done.
Defined.

(** ** A whole frame *)






(** ** The main loop *)

(** X21.  [Game()] with a fitting configuration never fails.  The new game is
    playing, at score 0 and level 1, with the quota [ENEMY_COUNT] and the
    three anchors of [__init__]; its level is freshly set up, and it meets
    the condition under which frames run for ever. *)
Theorem new_game_spec (cfg : Config) (w : World) :
  fits cfg ->
  ∃ g w',
    Game.init cfg w = Some (g, w') ∧
    Game.game_state g = "playing" ∧
    Game.score g = 0 ∧
    Game.level g = 1 ∧
    Game.max_enemies_per_level g = ENEMY_COUNT cfg ∧
    Game.enemy_spawn_timer g = 0 ∧
    Game.enemy_spawn_positions g = Game.spawn_positions cfg ∧
    Z.of_nat (length (Game.enemy_tanks g)) = Z.max 0 (Z.min 3 (ENEMY_COUNT cfg)) ∧
    fresh_level cfg g ∧
    frame_ok cfg g.
Proof.
  intros Hfits. unfold Game.init.
  match goal with
  | |- context [Game.init_game cfg ?g1] =>
      destruct (init_game_run cfg g1 w Hfits)
        as (g & w' & Hrun & Hst & Hsc & Hlv & Hq & Hpos & Htimer & _ & Hfresh)
  end.
  simpl in Hst, Hsc, Hlv, Hq, Hpos.
  exists g, w'. repeat (split; [assumption|]).
  pose proof Hfresh as (_ & _ & Hbatch & _ & _ & _ & _ & _ & Hmap & _).
  split.
  { rewrite <- (length_map enemy_pos), Hbatch, length_take, Hq, Hpos.
    simpl. lia. }
  split; [done|]. split; [done|]. by rewrite Hpos.
Qed.

Lemma new_game_spec_witness :
  ∃ g w',
    Game.init demo_config demo_world = Some (g, w') ∧
    length (Game.enemy_tanks g) = 3%nat ∧
    Tank.x (PlayerTank.base (Game.player_tank g)) = 80.
Proof.
  destruct (new_game_spec demo_config demo_world demo_config_fits)
    as (g & w' & Hrun & _ & _ & _ & _ & _ & _ & Hlen & Hfresh & _).
  exists g, w'. split; [done|]. split.
  - change (Z.max 0 (Z.min 3 (ENEMY_COUNT demo_config))) with 3 in Hlen. lia.
  - destruct Hfresh as (_ & _ & _ & _ & _ & _ & Hx & _). rewrite Hx.
    reflexivity.
Defined.



